(** * Email worker: the job lifecycle engine of [worker.js]

    A shallow embedding of [sendEmail], [processEmailJob] and [pollJobs]
    of the inline-attachment worker (jobs with [retries]/[maxRetries],
    attachment carried in the job as base64), of the job schema and poll
    query of the older shared-filesystem worker (jobs with
    [attempts]/[max_attempts] and a [priority]), and the properties of
    the job lifecycle: claim, delivery with port fallback, success and
    failure commit, polling.

    Modelling conventions:
    - a Mongoose collection is a finite map from [_id] to document; an
      ObjectId is a number ([N]);
    - an accepted [save] leaves the document under its [_id]. Mongoose
      sends the assigned fields only, which comes to the same for a
      document that was loaded from the store and that nobody else has
      written since (the jobs of poll cycles that run one after the
      other); for any other document the statements keep to the fields
      the code assigns. A [save] that finds no document to update is a
      rejected [save];
    - job data carry values of the types the worker expects (an id for
      [ticketId], text elsewhere); an id that Mongoose cannot cast makes
      the lookup reject, which is a rejected store operation here;
    - [worker.js] registers no [Event] model, so
      [populate("event")] rejects, with Mongoose's [MissingSchemaError],
      for every ticket whose [event] reference is set;
    - a JS [Number] holding a counter, a port or a timestamp is a [Z];
    - a property that may be [undefined] or [null] is an [option];
    - [await]ed operations (store, SMTP, timers) run against an explicit
      environment [Env] that decides, at each logical instant, whether
      the operation is rejected and what the mail server answers;
    - a thrown JS [Error] is the [Throw] result of the monad; the state
      reached before the throw is kept, as a [catch] block sees it;
    - poll cycles run one after the other (one worker, no overlap);
    - [logger.info] lines only print and are left out; [logger.warn] and
      [logger.error] are recorded in the trace. *)

From Stdlib Require Import ZArith NArith String List Bool Lia.
From Stdlib Require Import Sorting.Sorted Sorting.Permutation.
From stdpp Require Import base option list gmap sorting strings.

Local Open Scope Z_scope.
Local Open Scope string_scope.
Local Open Scope list_scope.

(** ** JavaScript values *)

(** A JS [Error]: [error.code] (set by Node and nodemailer on transport
    errors, [undefined] on [new Error(msg)]) and [error.message]. *)
Record Err := MkErr { code : option string; message : string }.

(** [new Error(msg)] *)
Definition Error (msg : string) : Err := {| code := None; message := msg |}.

(** Truthiness of a string-valued property: [undefined], [null] and the
    empty string are falsy. *)
Definition truthy (v : option string) : bool :=
  match v with
  | Some (String _ _) => true
  | _ => false
  end.

(** [v || d] with a string default. *)
Definition or_default (v : option string) (d : string) : string :=
  match v with
  | Some (String c s) => String c s
  | _ => d
  end.

(** [v || w] where [w] may itself be undefined. *)
Definition or_else (v w : option string) : option string :=
  if truthy v then v else w.

(** [v || null] *)
Definition or_null (v : option string) : option string :=
  if truthy v then v else None.

Definition dquote : string := String (Ascii.ascii_of_nat 34) EmptyString.
Definition newline : string := String (Ascii.ascii_of_nat 10) EmptyString.

(** Mongoose's [MissingSchemaError] for a model that was never
    registered with [mongoose.model]. *)
Definition MissingSchemaError (name : string) : Err :=
  {| code := None;
     message := ("Schema hasn't been registered for model " ++ dquote ++ name
                 ++ dquote ++ "." ++ newline
                 ++ "Use mongoose.model(name, schema)")%string |}.

(** ** Documents *)

Inductive JobType := generate_ticket | verify_ticket | update_ticket | send_email.
Inductive Status := queued | pending | processing | completed | errored | failed.

Global Instance JobType_eq_dec : EqDecision JobType.
Proof. solve_decision. Defined.
Global Instance Status_eq_dec : EqDecision Status.
Proof. solve_decision. Defined.

(** [job.data] of the inline-attachment worker. *)
Module JobData.
Record t := {
  ticketId : option N;
  recipientEmail : option string;
  subject : option string;
  textBody : option string;
  htmlBody : option string;
  fromName : option string;
  attachmentBase64 : option string;
  attachmentFilename : option string
}.
End JobData.

Module Result.
Record t := { success : bool; messageId : string }.
End Result.

Module Job.
Record t := {
  _id : N;
  job_type : JobType;
  data : JobData.t;
  status : Status;
  result : option Result.t;
  error : option string;
  retries : Z;
  maxRetries : Z;
  nextRetryAt : option Z;
  created_at : Z;
  updated_at : Z
}.

Definition set_status (v : Status) (j : t) : t :=
  {| _id := _id j; job_type := job_type j; data := data j; status := v;
     result := result j; error := error j; retries := retries j;
     maxRetries := maxRetries j; nextRetryAt := nextRetryAt j;
     created_at := created_at j; updated_at := updated_at j |}.
Definition set_retries (v : Z) (j : t) : t :=
  {| _id := _id j; job_type := job_type j; data := data j; status := status j;
     result := result j; error := error j; retries := v;
     maxRetries := maxRetries j; nextRetryAt := nextRetryAt j;
     created_at := created_at j; updated_at := updated_at j |}.
Definition set_updated_at (v : Z) (j : t) : t :=
  {| _id := _id j; job_type := job_type j; data := data j; status := status j;
     result := result j; error := error j; retries := retries j;
     maxRetries := maxRetries j; nextRetryAt := nextRetryAt j;
     created_at := created_at j; updated_at := v |}.
Definition set_result (v : option Result.t) (j : t) : t :=
  {| _id := _id j; job_type := job_type j; data := data j; status := status j;
     result := v; error := error j; retries := retries j;
     maxRetries := maxRetries j; nextRetryAt := nextRetryAt j;
     created_at := created_at j; updated_at := updated_at j |}.
Definition set_error (v : option string) (j : t) : t :=
  {| _id := _id j; job_type := job_type j; data := data j; status := status j;
     result := result j; error := v; retries := retries j;
     maxRetries := maxRetries j; nextRetryAt := nextRetryAt j;
     created_at := created_at j; updated_at := updated_at j |}.
End Job.

(** The event a ticket refers to, as [populate("event")] would deliver
    it. *)
Module Event.
Record t := { name : option string }.
End Event.

Module TicketDetails.
Record t := { name : option string; email : option string }.
End TicketDetails.

(** A ticket. [event] is the event the ticket refers to, [null] when it
    refers to none; the message is composed from the ticket as
    [populate("event")] hands it over, with the event document in the
    place of the reference. *)
Module Ticket.
Record t := {
  _id : N;
  ticket_number : option string;
  event : option Event.t;
  status : option string;
  imageUrl : option string;
  ticket_details : option TicketDetails.t;
  timestamp : option Z
}.

Definition set_status (v : option string) (k : t) : t :=
  {| _id := _id k; ticket_number := ticket_number k; event := event k;
     status := v; imageUrl := imageUrl k;
     ticket_details := ticket_details k; timestamp := timestamp k |}.
End Ticket.

Module EmailCredential.
Record t := {
  _id : N;
  name : string;
  email : string;
  smtp_server : string;
  smtp_port : Z;
  username : string;
  password : string;
  is_active : bool;
  daily_limit : option Z;
  daily_usage : Z
}.

Definition set_daily_usage (v : Z) (c : t) : t :=
  {| _id := _id c; name := name c; email := email c;
     smtp_server := smtp_server c; smtp_port := smtp_port c;
     username := username c; password := password c;
     is_active := is_active c; daily_limit := daily_limit c;
     daily_usage := v |}.
End EmailCredential.

(** ** Mail and transport *)

(** [Buffer.from(text, encoding)], kept symbolic. *)
Inductive Buffer := Buffer_from (text : string) (encoding : string).

Module Attachment.
Record t := { filename : string; content : Buffer }.
End Attachment.

Module EmailOptions.
Record t := {
  from : string;
  to : option string;
  subject : string;
  text : string;
  html : option string;
  attachments : list Attachment.t
}.
End EmailOptions.

(** The options handed to [nodemailer.createTransport]. *)
Module Transport.
Record t := {
  host : string;
  port : Z;
  secure : bool;
  auth_user : string;
  auth_pass : string;
  connectionTimeout : Z;
  greetingTimeout : Z;
  socketTimeout : Z;
  pool : bool;
  maxConnections : Z;
  maxMessages : Z;
  rateLimit : Z;
  tls_minVersion : string;
  tls_rejectUnauthorized : bool
}.
End Transport.

(** What [transporter.sendMail] resolves to. *)
Module Info.
Record t := { messageId : string }.
End Info.

(** ** The environment, the world and the trace *)

Inductive Res (A : Type) := Ok (a : A) | Throw (e : Err).
Arguments Ok {A} a.
Arguments Throw {A} e.

(** The behaviour of everything outside the process, indexed by the
    logical instant ([tick]) at which an operation is issued. *)
Record Env := {
  db_fault : nat -> option Err;
  smtp_verify : nat -> Transport.t -> option Err;
  smtp_sendMail : nat -> Transport.t -> EmailOptions.t -> Res Info.t;
  clock : nat -> Z
}.

Inductive Level := lvl_warn | lvl_error.

(** A template literal, piece by piece: literal text, an interpolated
    string, an interpolated ObjectId, an interpolated number. *)
Inductive Frag := Txt (s : string) | Id (n : N) | Num (z : Z).

(** What the process did to the outside, in order. A store or SMTP
    operation is recorded with its outcome: [None] when it went through,
    [Some e] when it was rejected with [e]. *)
Inductive Ev :=
| EvJobFind (rejected : option Err)
| EvJobSave (j : Job.t) (rejected : option Err)
| EvTicketFindById (id : N) (rejected : option Err)
| EvCredentialFindOne (rejected : option Err)
| EvCredentialInc (id : N) (rejected : option Err)
| EvTicketSave (k : Ticket.t) (rejected : option Err)
| EvVerify (tr : Transport.t) (rejected : option Err)
| EvSendMail (tr : Transport.t) (mail : EmailOptions.t) (answer : Res Info.t)
| EvClose (tr : Transport.t)
| EvSleep (ms : Z)
| EvLog (lvl : Level) (msg : list Frag).

Record World := {
  jobs : gmap N Job.t;
  tickets : gmap N Ticket.t;
  credentials : gmap N EmailCredential.t;
  tick : nat;
  trace : list Ev
}.

(** The activation of [processEmailJob]: the world, and the document
    object [doc] bound to the parameter [job], which the function mutates
    in place. *)
Record Frame := { world : World; doc : Job.t }.

(** ** The monad of asynchronous code *)

Definition M (S A : Type) : Type := Env -> S -> Res A * S.

Definition ret {S A} (a : A) : M S A := fun _ s => (Ok a, s).

Definition bind {S A B} (m : M S A) (k : A -> M S B) : M S B :=
  fun env s =>
    match m env s with
    | (Ok a, s') => k a env s'
    | (Throw e, s') => (Throw e, s')
    end.

Definition throw {S A} (e : Err) : M S A := fun _ s => (Throw e, s).

(** [try { m } catch (error) { h error }] *)
Definition try_catch {S A} (m : M S A) (h : Err -> M S A) : M S A :=
  fun env s =>
    match m env s with
    | (Ok a, s') => (Ok a, s')
    | (Throw e, s') => h e env s'
    end.

Notation "x <- m ;;; k" := (bind m (fun x => k))
  (at level 100, m at next level, right associativity,
   format "'[v' x  <-  m  ;;; '/' k ']'").
Notation "m >>> k" := (bind m (fun _ => k))
  (at level 100, right associativity,
   format "'[v' m  >>> '/' k ']'").

(** Running world-level code from inside [processEmailJob]. *)
Definition liftW {A} (m : M World A) : M Frame A :=
  fun env f =>
    let '(r, w) := m env (world f) in (r, {| world := w; doc := doc f |}).

(** Reading and updating the [job] object. *)
Definition get_job : M Frame Job.t := fun _ f => (Ok (doc f), f).
Definition update_job (g : Job.t -> Job.t) : M Frame unit :=
  fun _ f => (Ok tt, {| world := world f; doc := g (doc f) |}).

(** ** World-level primitives *)

Definition record (ev : Ev) (w : World) : World :=
  {| jobs := jobs w; tickets := tickets w; credentials := credentials w;
     tick := tick w; trace := trace w ++ [ev] |}.

Definition advance (w : World) : World :=
  {| jobs := jobs w; tickets := tickets w; credentials := credentials w;
     tick := S (tick w); trace := trace w |}.

Definition with_jobs (m : gmap N Job.t) (w : World) : World :=
  {| jobs := m; tickets := tickets w; credentials := credentials w;
     tick := tick w; trace := trace w |}.
Definition with_tickets (m : gmap N Ticket.t) (w : World) : World :=
  {| jobs := jobs w; tickets := m; credentials := credentials w;
     tick := tick w; trace := trace w |}.
Definition with_credentials (m : gmap N EmailCredential.t) (w : World) : World :=
  {| jobs := jobs w; tickets := tickets w; credentials := m;
     tick := tick w; trace := trace w |}.

(** [logger.warn(msg)], [logger.error(msg)] *)
Definition logger (lvl : Level) (msg : list Frag) : M World unit :=
  fun _ w => (Ok tt, record (EvLog lvl msg) w).

(** [new Date()] *)
Definition new_Date : M World Z := fun env w => (Ok (clock env (tick w)), w).

(** A store operation: the environment may reject it; otherwise [run]
    gives its answer and its effect on the collections. *)
Definition db_op {A} (ev : option Err -> Ev) (run : World -> A * World) : M World A :=
  fun env w =>
    match db_fault env (tick w) with
    | Some e => (Throw e, advance (record (ev (Some e)) w))
    | None =>
        let '(a, w') := run w in (Ok a, advance (record (ev None) w'))
    end.

(** [await doc.save()] on a job document. An accepted save leaves the
    document under its [_id] (see the conventions above for a document
    that is not the store's own). *)
Definition Job_save (j : Job.t) : M World unit :=
  db_op (EvJobSave j) (fun w => (tt, with_jobs (<[Job._id j := j]> (jobs w)) w)).

(** [await Ticket.findById(id).populate("event")]. The lookup answers
    [null] when there is no such ticket. For a ticket that refers to an
    event, [populate] needs the [Event] model, which [worker.js] never
    registers: the call rejects with a [MissingSchemaError]. *)
Definition Ticket_findById (id : N) : M World (option Ticket.t) :=
  fun env w =>
    match db_fault env (tick w) with
    | Some e => (Throw e, advance (record (EvTicketFindById id (Some e)) w))
    | None =>
        match tickets w !! id with
        | None => (Ok None, advance (record (EvTicketFindById id None) w))
        | Some ticket =>
            match Ticket.event ticket with
            | None =>
                (Ok (Some ticket), advance (record (EvTicketFindById id None) w))
            | Some _ =>
                (Throw (MissingSchemaError "Event"),
                 advance (record (EvTicketFindById id
                                    (Some (MissingSchemaError "Event"))) w))
            end
        end
    end.

(** [await ticket.save()] *)
Definition Ticket_save (k : Ticket.t) : M World unit :=
  db_op (EvTicketSave k) (fun w => (tt, with_tickets (<[Ticket._id k := k]> (tickets w)) w)).

(** The documents of a collection, in the store's own order. *)
Definition docs {A} (m : gmap N A) : list A := (map_to_list m).*2.

(** The filter of the credential query:
    [{ is_active: true, $or: [ { daily_limit: { $exists: false } },
       { daily_limit: null }, { $expr: { $lt: ["$daily_usage", "$daily_limit"] } } ] }] *)
Definition eligible (c : EmailCredential.t) : bool :=
  EmailCredential.is_active c &&
  match EmailCredential.daily_limit c with
  | None => true
  | Some limit => (EmailCredential.daily_usage c <? limit)%Z
  end.

(** [await EmailCredential.findOne(filter)]: the first match, or [null]. *)
Definition EmailCredential_findOne (filter : EmailCredential.t -> bool)
  : M World (option EmailCredential.t) :=
  db_op EvCredentialFindOne
        (fun w => (List.find filter (docs (credentials w)), w)).

(** [await EmailCredential.findByIdAndUpdate(id, { $inc: { daily_usage: 1 } })] *)
Definition EmailCredential_findByIdAndUpdate_inc (id : N) : M World unit :=
  db_op (EvCredentialInc id)
        (fun w => (tt, with_credentials
                         (alter (fun c => EmailCredential.set_daily_usage
                                            (EmailCredential.daily_usage c + 1) c)
                                id (credentials w)) w)).

(** [await transporter.verify()] *)
Definition transporter_verify (tr : Transport.t) : M World unit :=
  fun env w =>
    match smtp_verify env (tick w) tr with
    | Some e => (Throw e, advance (record (EvVerify tr (Some e)) w))
    | None => (Ok tt, advance (record (EvVerify tr None) w))
    end.

(** [await transporter.sendMail(emailOptions)] *)
Definition transporter_sendMail (tr : Transport.t) (mail : EmailOptions.t)
  : M World Info.t :=
  fun env w =>
    match smtp_sendMail env (tick w) tr mail with
    | Throw e => (Throw e, advance (record (EvSendMail tr mail (Throw e)) w))
    | Ok info => (Ok info, advance (record (EvSendMail tr mail (Ok info)) w))
    end.

(** [transporter.close()] *)
Definition transporter_close (tr : Transport.t) : M World unit :=
  fun _ w => (Ok tt, record (EvClose tr) w).

(** [await new Promise((resolve) => setTimeout(resolve, ms))] *)
Definition sleep (ms : Z) : M World unit :=
  fun _ w => (Ok tt, advance (record (EvSleep ms) w)).

(** Calling a function that takes the document object [job]. *)
Definition call {A} (body : M Frame A) (job : Job.t) : M World A :=
  fun env w =>
    let '(r, f) := body env {| world := w; doc := job |} in (r, world f).

(** ** The inline-attachment worker *)

(** *** [sendEmail] *)

Definition createTransport (credential : EmailCredential.t) (port : Z) (secure : bool)
  : Transport.t :=
  {| Transport.host := EmailCredential.smtp_server credential;
     Transport.port := port;
     Transport.secure := secure;
     Transport.auth_user := EmailCredential.username credential;
     Transport.auth_pass := EmailCredential.password credential;
     Transport.connectionTimeout := 15000;
     Transport.greetingTimeout := 15000;
     Transport.socketTimeout := 30000;
     Transport.pool := true;
     Transport.maxConnections := 5;
     Transport.maxMessages := 100;
     Transport.rateLimit := 5;
     Transport.tls_minVersion := "TLSv1.2";
     Transport.tls_rejectUnauthorized := true |}.

Definition sendEmail (credential : EmailCredential.t) (emailOptions : EmailOptions.t)
    (usePort465 : bool) : M World Info.t :=
  let port := if usePort465 then 465 else EmailCredential.smtp_port credential in
  let secure := (port =? 465)%Z in
  let transporter := createTransport credential port secure in
  transporter_verify transporter >>>
  info <- transporter_sendMail transporter emailOptions ;;;
  transporter_close transporter >>>
  ret info.

(** *** [processEmailJob] *)

(** The [emailOptions] object literal. *)
Definition compose (job : Job.t) (ticket : Ticket.t) (credential : EmailCredential.t)
    (attachmentBuffer : Buffer) : EmailOptions.t :=
  let data := Job.data job in
  {| EmailOptions.from :=
       dquote ++ or_default (JobData.fromName data) "Admin" ++ dquote ++ " <"
       ++ EmailCredential.email credential ++ ">";
     EmailOptions.to :=
       or_else (JobData.recipientEmail data)
               (Ticket.ticket_details ticket ≫= TicketDetails.email);
     EmailOptions.subject :=
       or_default (JobData.subject data)
         ("Your Ticket for "
          ++ or_default (Ticket.event ticket ≫= Event.name) "Event");
     EmailOptions.text :=
       or_default (JobData.textBody data) "Your ticket is attached.";
     EmailOptions.html := or_null (JobData.htmlBody data);
     EmailOptions.attachments :=
       [ {| Attachment.filename := default EmptyString (JobData.attachmentFilename data);
            Attachment.content := attachmentBuffer |} ] |}.

(** The inner [try]/[catch] around the primary send: the port fallback. *)
Definition deliver (credential : EmailCredential.t) (emailOptions : EmailOptions.t)
  : M World Info.t :=
  try_catch
    (sendEmail credential emailOptions false)
    (fun error =>
       if bool_decide (code error = Some "ETIMEDOUT")
          && bool_decide (EmailCredential.smtp_port credential = 587)
       then
         logger lvl_warn [Txt "⚠️ Port 587 timeout, trying port 465..."] >>>
         sendEmail credential emailOptions true
       else throw error).

(** The body of the outer [try]. *)
Definition attempt : M Frame bool :=
  (* Update job status *)
  update_job (Job.set_status processing) >>>
  update_job (fun job => Job.set_retries (Job.retries job + 1) job) >>>
  now <- liftW new_Date ;;;
  update_job (Job.set_updated_at now) >>>
  job <- get_job ;;;
  liftW (Job_save job) >>>
  (* Get ticket details from job data *)
  match JobData.ticketId (Job.data job) with
  | None => throw (Error "Ticket ID not found in job data")
  | Some ticketId =>
  ticket <- liftW (Ticket_findById ticketId) ;;;
  match ticket with
  | None => throw (Error "Ticket not found")
  | Some ticket =>
  (* Get email credential *)
  credential <- liftW (EmailCredential_findOne eligible) ;;;
  match credential with
  | None => throw (Error "No available email credentials")
  | Some credential =>
  (* Get attachment from job data (base64 encoded) *)
  if negb (truthy (JobData.attachmentBase64 (Job.data job)))
     || negb (truthy (JobData.attachmentFilename (Job.data job)))
  then throw (Error "Attachment data missing in job")
  else
  let attachmentBuffer :=
    Buffer_from (default EmptyString (JobData.attachmentBase64 (Job.data job))) "base64" in
  let emailOptions := compose job ticket credential attachmentBuffer in
  (* Try sending with configured port first *)
  emailInfo <- liftW (deliver credential emailOptions) ;;;
  (* Update credential usage *)
  liftW (EmailCredential_findByIdAndUpdate_inc (EmailCredential._id credential)) >>>
  (* Mark job as completed *)
  update_job (Job.set_status completed) >>>
  update_job (Job.set_result
                (Some {| Result.success := true;
                         Result.messageId := Info.messageId emailInfo |})) >>>
  now <- liftW new_Date ;;;
  update_job (Job.set_updated_at now) >>>
  job <- get_job ;;;
  liftW (Job_save job) >>>
  (* Update ticket status; [ticket] is not null here *)
  let ticket := Ticket.set_status (Some "sent") ticket in
  liftW (Ticket_save ticket) >>>
  ret true
  end end end.

(** The body of the outer [catch]. *)
Definition on_error (error : Err) : M Frame bool :=
  job <- get_job ;;;
  liftW (logger lvl_error
           [Txt "❌ Email job "; Id (Job._id job); Txt " failed: "; Txt (message error)]) >>>
  (* Update job with error *)
  update_job (Job.set_error (Some (message error))) >>>
  now <- liftW new_Date ;;;
  update_job (Job.set_updated_at now) >>>
  job <- get_job ;;;
  (if (Job.maxRetries job <=? Job.retries job)%Z
   then
     update_job (Job.set_status failed) >>>
     liftW (logger lvl_error [Txt "❌ Max retries reached for job "; Id (Job._id job)])
   else
     update_job (Job.set_status pending) (* Retry later *)) >>>
  job <- get_job ;;;
  liftW (Job_save job) >>>
  ret false.

Definition processEmailJob (job : Job.t) : M World bool :=
  call (try_catch attempt on_error) job.

(** *** [pollJobs] *)

(** The filter of the poll query:
    [{ job_type: "send_email", status: "pending", retries: { $lt: 3 } }] *)
Definition poll_filter (j : Job.t) : bool :=
  bool_decide (Job.job_type j = send_email)
  && bool_decide (Job.status j = pending)
  && (Job.retries j <? 3)%Z.

(** [.sort({ created_at: 1 })] *)
Definition by_created_at (a b : Job.t) : Prop :=
  (Job.created_at a <= Job.created_at b)%Z.

Global Instance by_created_at_dec a b : Decision (by_created_at a b).
Proof. unfold by_created_at. apply _. Defined.

(** What [find(filter).sort(order).limit(n)] answers on a collection. *)
Definition find_sort_limit {A} (filter : A -> bool) (order : A -> A -> Prop)
    `{!forall a b, Decision (order a b)} (n : nat) (collection : gmap N A) : list A :=
  take n (merge_sort order (List.filter filter (docs collection))).

(** [await Job.find(filter).sort(order).limit(n)] *)
Definition Job_find (filter : Job.t -> bool) (order : Job.t -> Job.t -> Prop)
    `{!forall a b, Decision (order a b)} (n : nat) : M World (list Job.t) :=
  db_op EvJobFind (fun w => (find_sort_limit filter order n (jobs w), w)).

(** [for (const job of jobs) { await processEmailJob(job); await sleep }] *)
Fixpoint for_each_job (jobs : list Job.t) : M World unit :=
  match jobs with
  | [] => ret tt
  | job :: rest =>
      processEmailJob job >>>
      (* Small delay between jobs *)
      sleep 1000 >>>
      for_each_job rest
  end.

(** The poll query on the job collection. *)
Definition poll_query (collection : gmap N Job.t) : list Job.t :=
  find_sort_limit poll_filter by_created_at 5 collection.

Definition pollJobs : M World unit :=
  try_catch
    ((* Find pending email jobs *)
     jobs <- Job_find poll_filter by_created_at 5 ;;;
     if (0 <? Z.of_nat (length jobs))%Z
     then for_each_job jobs
     else ret tt)
    (fun error =>
       logger lvl_error [Txt "❌ Polling error: "; Txt (message error)]).


(** [setInterval(pollJobs, POLL_INTERVAL)], as long as the cycles do not
    overlap: [n] poll cycles one after the other. *)
Fixpoint cycles (n : nat) (env : Env) (w : World) : World :=
  match n with
  | O => w
  | S n => cycles n env (snd (pollJobs env w))
  end.

(** ** The shared-filesystem worker: job schema and poll query

    The older variant keeps the attachment on a shared disk and counts
    [attempts] against [max_attempts]; its jobs carry a [priority] and
    no [updated_at]. Its [processEmailJob] has the control structure of
    the one above; what differs for the statements below is the poll
    query and the document of the claim write. *)
Module SharedFs.

Inductive JobType := generate_ticket | send_email.
Inductive Status := pending | processing | completed | failed.

Module JobData.
Record t := {
  subject : option string;
  textBody : option string;
  htmlBody : option string;
  fromName : option string
}.
End JobData.

Module Job.
Record t := {
  _id : N;
  ticket_id : option N;
  job_type : JobType;
  status : Status;
  priority : Z;
  data : JobData.t;
  error : option string;
  attempts : Z;
  max_attempts : Z;
  created_at : Z;
  processed_at : option Z
}.

Definition set_status (v : Status) (j : t) : t :=
  {| _id := _id j; ticket_id := ticket_id j; job_type := job_type j;
     status := v; priority := priority j; data := data j; error := error j;
     attempts := attempts j; max_attempts := max_attempts j;
     created_at := created_at j; processed_at := processed_at j |}.
Definition set_attempts (v : Z) (j : t) : t :=
  {| _id := _id j; ticket_id := ticket_id j; job_type := job_type j;
     status := status j; priority := priority j; data := data j;
     error := error j; attempts := v; max_attempts := max_attempts j;
     created_at := created_at j; processed_at := processed_at j |}.
End Job.

(** The document of the claim write,
    [job.status = "processing"; job.attempts += 1; await job.save()]:
    the schema of this variant has no [updated_at]. *)
Definition claimed (job : Job.t) : Job.t :=
  Job.set_attempts (Job.attempts job + 1) (Job.set_status processing job).

(** [mongoose.mongo.MAX_ATTEMPTS || 3]: the driver constant is taken as
  given ([None] when the driver exports no such name); [0] is falsy. *)
Definition attempts_ceiling (MAX_ATTEMPTS : option Z) : Z :=
  match MAX_ATTEMPTS with
  | None | Some 0 => 3
  | Some n => n
  end.

(** [{ job_type: "send_email", status: "pending",
     attempts: { $lt: mongoose.mongo.MAX_ATTEMPTS || 3 } }] *)
Definition poll_filter (MAX_ATTEMPTS : option Z) (j : Job.t) : bool :=
  match Job.job_type j, Job.status j with
  | send_email, pending => (Job.attempts j <? attempts_ceiling MAX_ATTEMPTS)%Z
  | _, _ => false
  end.

(** [.sort({ priority: -1, created_at: 1 })] *)
Definition by_priority_then_created_at (a b : Job.t) : Prop :=
  (Job.priority b < Job.priority a)%Z
  \/ (Job.priority a = Job.priority b /\ Job.created_at a <= Job.created_at b)%Z.

Global Instance by_priority_then_created_at_dec a b :
  Decision (by_priority_then_created_at a b).
Proof. unfold by_priority_then_created_at. apply _. Defined.

(** [Job.find(filter).sort({ priority: -1, created_at: 1 }).limit(5)] *)
Definition poll_query (MAX_ATTEMPTS : option Z) (collection : gmap N Job.t)
  : list Job.t :=
  find_sort_limit (poll_filter MAX_ATTEMPTS) by_priority_then_created_at 5 collection.

End SharedFs.

(** ** Vocabulary of the statements *)

(** What a run appended to the trace. *)
Definition events_since (w w' : World) : list Ev :=
  drop (length (trace w)) (trace w').

(** The document of the claim write: status [processing], one more retry,
    [updated_at] refreshed. *)
Definition claimed (env : Env) (w : World) (job : Job.t) : Job.t :=
  Job.set_updated_at (clock env (tick w))
    (Job.set_retries (Job.retries job + 1) (Job.set_status processing job)).

(** Every call of [sendEmail] opens with exactly one [verify], accepted or
    not: counting them counts the calls. *)
Definition is_verify (ev : Ev) : bool :=
  match ev with EvVerify _ _ => true | _ => false end.
Definition sendEmail_calls (evs : list Ev) : nat :=
  length (List.filter is_verify evs).

(** The primary attempt ended in a connection timeout and the credential
    is configured for the STARTTLS submission port. *)
Definition fallback_due (credential : EmailCredential.t) (primary : Res Info.t) : Prop :=
  exists e, primary = Throw e /\ code e = Some "ETIMEDOUT"
            /\ EmailCredential.smtp_port credential = 587.

(** Documents sit under their own [_id]. *)
Definition keyed {A} (id : A -> N) (collection : gmap N A) : Prop :=
  forall k a, collection !! k = Some a -> id a = k.

(** From the instant of [w] on, the store rejects nothing. *)
Definition store_accepts (env : Env) (w : World) : Prop :=
  forall n, (tick w <= n)%nat -> db_fault env n = None.


(** The status the [catch] block gives a job whose attempt failed:
    [failed] once the incremented counter has reached the ceiling. *)
Definition status_after_failure (job : Job.t) : Status :=
  if (Job.maxRetries job <=? Job.retries job + 1)%Z then failed else pending.

(** Events that are neither a store read nor network traffic. *)
Definition is_write_or_log (ev : Ev) : bool :=
  match ev with EvJobSave _ _ | EvLog _ _ => true | _ => false end.

(** A job write that closes an attempt on [job]. *)
Definition closing_write (job : Job.t) (ev : Ev) : Prop :=
  match ev with
  | EvJobSave j _ =>
      Job._id j = Job._id job
      /\ Job.retries j = Job.retries job + 1
      /\ (Job.status j = completed \/ Job.status j = pending \/ Job.status j = failed)
  | _ => True
  end.

(** The jobs whose claim write appears among the events, in order. *)
Definition claim_ids (evs : list Ev) : list N :=
  omap (fun ev => match ev with
                  | EvJobSave j _ =>
                      if bool_decide (Job.status j = processing)
                      then Some (Job._id j) else None
                  | _ => None
                  end) evs.

Definition is_usage_update (ev : Ev) : bool :=
  match ev with EvCredentialInc _ _ => true | _ => false end.

(** [{ $inc: { daily_usage: 1 } }] on one credential. *)
Definition increment_usage (c : EmailCredential.t) : EmailCredential.t :=
  EmailCredential.set_daily_usage (EmailCredential.daily_usage c + 1) c.

(** The statuses the store took, one after the other, for the job [id]. *)
Definition accepted_statuses (id : N) (evs : list Ev) : list Status :=
  omap (fun ev => match ev with
                  | EvJobSave j None =>
                      if bool_decide (Job._id j = id) then Some (Job.status j) else None
                  | _ => None
                  end) evs.


(** The sends the mail server accepted. *)
Definition is_delivery (ev : Ev) : bool :=
  match ev with EvSendMail _ _ (Ok _) => true | _ => false end.

(** The error a failed SMTP operation reports. *)
Definition smtp_failure (ev : Ev) : option Err :=
  match ev with
  | EvVerify _ (Some e) => Some e
  | EvSendMail _ _ (Throw e) => Some e
  | _ => None
  end.

(** ** Vocabulary of the further properties *)

Definition is_store_op (ev : Ev) : bool :=
  match ev with
  | EvJobFind _ | EvJobSave _ _ | EvTicketFindById _ _ | EvCredentialFindOne _
  | EvCredentialInc _ _ | EvTicketSave _ _ => true
  | _ => false
  end.

Definition is_store_read (ev : Ev) : bool :=
  match ev with
  | EvJobFind _ | EvTicketFindById _ _ | EvCredentialFindOne _ => true
  | _ => false
  end.

Definition is_smtp_op (ev : Ev) : bool :=
  match ev with EvVerify _ _ | EvSendMail _ _ _ => true | _ => false end.

Definition is_send (ev : Ev) : bool :=
  match ev with EvSendMail _ _ _ => true | _ => false end.

Definition is_close (ev : Ev) : bool :=
  match ev with EvClose _ => true | _ => false end.

Definition is_sleep (ev : Ev) : bool :=
  match ev with EvSleep _ => true | _ => false end.

(** Commit steps the store accepted. *)
Definition is_accepted_usage_update (ev : Ev) : bool :=
  match ev with EvCredentialInc _ None => true | _ => false end.

Definition is_accepted_completion (ev : Ev) : bool :=
  match ev with
  | EvJobSave j None =>
      match Job.status j with completed => true | _ => false end
  | _ => false
  end.

Definition is_ticket_save (ev : Ev) : bool :=
  match ev with EvTicketSave _ _ => true | _ => false end.

Definition count (p : Ev -> bool) (evs : list Ev) : nat :=
  length (List.filter p evs).

(** No [q]-event comes before the first [p]-event. *)
Fixpoint only_after (p q : Ev -> bool) (evs : list Ev) : bool :=
  match evs with
  | [] => true
  | ev :: rest => if p ev then true else negb (q ev) && only_after p q rest
  end.

(** The transport an SMTP event went through. *)
Definition transport_of (ev : Ev) : option Transport.t :=
  match ev with
  | EvVerify tr _ | EvSendMail tr _ _ | EvClose tr => Some tr
  | _ => None
  end.

(** The fields of a job document that [processEmailJob] never assigns. *)
Definition same_identity (a b : Job.t) : Prop :=
  Job._id a = Job._id b
  /\ Job.job_type a = Job.job_type b
  /\ Job.data a = Job.data b
  /\ Job.maxRetries a = Job.maxRetries b
  /\ Job.nextRetryAt a = Job.nextRetryAt b
  /\ Job.created_at a = Job.created_at b.

(** What a job write of an attempt on [job] looks like, status by
    status. *)
Definition attempt_write (job j : Job.t) : Prop :=
  same_identity j job
  /\ Job.retries j = Job.retries job + 1
  /\ match Job.status j with
     | processing => Job.error j = Job.error job /\ Job.result j = Job.result job
     | completed =>
         Job.error j = Job.error job
         /\ exists id, Job.result j
                       = Some {| Result.success := true; Result.messageId := id |}
     | pending =>
         Job.retries j < Job.maxRetries j /\ is_Some (Job.error j)
     | failed =>
         Job.maxRetries j <= Job.retries j /\ is_Some (Job.error j)
     | queued | errored => False
     end.

Definition is_attempt_write (job : Job.t) (ev : Ev) : Prop :=
  match ev with
  | EvJobSave j _ => attempt_write job j
  | _ => True
  end.

(** An SMTP operation of a run goes through a transport built from a
    credential that the store holds and that is eligible, on its own port
    or on port 465. *)
Definition via_eligible_credential (w : World) (ev : Ev) : Prop :=
  forall tr, transport_of ev = Some tr ->
    exists k c,
      credentials w !! k = Some c /\ eligible c = true
      /\ tr = createTransport c (Transport.port tr) (Transport.port tr =? 465)%Z
      /\ (Transport.port tr = EmailCredential.smtp_port c \/ Transport.port tr = 465).


(** What stops an attempt before any mail server is contacted when the
    store rejects nothing, with the message of the error thrown: the
    four checks of [processEmailJob], and the ticket lookup itself for
    a ticket that refers to an event; [None] for a job that gets
    through. *)
Definition validation_error (w : World) (job : Job.t) : option string :=
  match JobData.ticketId (Job.data job) with
  | None => Some "Ticket ID not found in job data"
  | Some ticketId =>
  match tickets w !! ticketId with
  | None => Some "Ticket not found"
  | Some ticket =>
  match Ticket.event ticket with
  | Some _ => Some (message (MissingSchemaError "Event"))
  | None =>
  match List.find eligible (docs (credentials w)) with
  | None => Some "No available email credentials"
  | Some _ =>
  if negb (truthy (JobData.attachmentBase64 (Job.data job)))
     || negb (truthy (JobData.attachmentFilename (Job.data job)))
  then Some "Attachment data missing in job"
  else None
  end end end end.

(** Two collections hold documents under the same keys, related by [R]. *)
Definition pointwise {A} (R : A -> A -> Prop) (m m' : gmap N A) : Prop :=
  forall k, option_Forall2 R (m !! k) (m' !! k).

(** What one poll cycle can make of a stored job. *)
Definition job_cycle (j j' : Job.t) : Prop :=
  j' = j \/ (poll_filter j = true /\ attempt_write j j').

(** What any number of poll cycles can make of a stored job, ticket or
    credential. *)
Definition job_evolved (j j' : Job.t) : Prop :=
  same_identity j' j
  /\ Job.retries j <= Job.retries j' <= Z.max (Job.retries j) 3
  /\ (poll_filter j = false -> j' = j)
  /\ (j' = j \/ (Job.status j' <> queued /\ Job.status j' <> errored)).

Definition ticket_evolved (t t' : Ticket.t) : Prop :=
  t' = t \/ t' = Ticket.set_status (Some "sent") t.

Definition credential_evolved (c c' : EmailCredential.t) : Prop :=
  exists usage,
    c' = EmailCredential.set_daily_usage usage c
    /\ EmailCredential.daily_usage c <= usage
    /\ (EmailCredential.is_active c = false -> usage = EmailCredential.daily_usage c)
    /\ (forall limit, EmailCredential.daily_limit c = Some limit ->
          usage <= Z.max (EmailCredential.daily_usage c) limit).

(** ** The HTTP endpoints and the start of the worker *)

(** What a handler answers: [res.json(body)] answers with status 200,
    [res.status(code).json(body)] with the status given. *)
Module Response.
Record t (A : Type) := { status : Z; body : A }.
Arguments status {A} _.
Arguments body {A} _.
End Response.

Definition res_json {A} (body : A) : Response.t A :=
  {| Response.status := 200; Response.body := body |}.
Definition res_status_json {A} (code : Z) (body : A) : Response.t A :=
  {| Response.status := code; Response.body := body |}.

(** [await Job.countDocuments(filter)]. The store may reject the query
    like any other operation; count queries leave no event in the trace,
    which records the poll loop. *)
Definition Job_countDocuments (filter : Job.t -> bool) : M World nat :=
  fun env w =>
    match db_fault env (tick w) with
    | Some e => (Throw e, advance w)
    | None => (Ok (length (List.filter filter (docs (jobs w)))), advance w)
    end.

(** The filter [{ job_type: "send_email", status: s }]. *)
Definition stats_filter (s : Status) (j : Job.t) : bool :=
  bool_decide (Job.job_type j = send_email) && bool_decide (Job.status j = s).

Module Stats.
Record t := { pending : nat; processing : nat; completed : nat; failed : nat }.
End Stats.

Inductive StatsBody :=
| StatsCounts (stats : Stats.t)
| StatsError (error : string).

(** [app.get("/stats", ...)] *)
Definition get_stats : M World (Response.t StatsBody) :=
  try_catch
    (n_pending <- Job_countDocuments (stats_filter pending) ;;;
     n_processing <- Job_countDocuments (stats_filter processing) ;;;
     n_completed <- Job_countDocuments (stats_filter completed) ;;;
     n_failed <- Job_countDocuments (stats_filter failed) ;;;
     ret (res_json (StatsCounts {| Stats.pending := n_pending;
                                   Stats.processing := n_processing;
                                   Stats.completed := n_completed;
                                   Stats.failed := n_failed |})))
    (fun error => ret (res_status_json 500 (StatsError (message error)))).

Inductive TriggerBody :=
| TriggerDone (success : bool) (message : string)
| TriggerError (success : bool) (error : string).

(** [app.post("/trigger", ...)] *)
Definition post_trigger : M World (Response.t TriggerBody) :=
  try_catch
    (pollJobs >>>
     ret (res_json (TriggerDone true "Job polling triggered")))
    (fun error => ret (res_status_json 500 (TriggerError false (message error)))).

(** A setting read as [process.env.NAME || fallback]: the text of the
    variable when it is set and not empty, the fallback number
    otherwise. *)
Inductive Setting :=
| FromEnv (text : string)
| Fallback (n : Z).

Definition setting (variable : option string) (fallback : Z) : Setting :=
  match variable with
  | Some text => if truthy variable then FromEnv text else Fallback fallback
  | None => Fallback fallback
  end.

(** What the surroundings of the process answer when the worker starts. *)
Module Host.
Record t := {
  env : Env;
  PORT : option string;
  POLL_INTERVAL : option string;
  (** [mongoose.connect(MONGODB_URI)] rejects with this error *)
  connect : option Err;
  (** [app.listen(PORT, ...)] throws this error *)
  listen : option Err
}.
End Host.

(** The worker process: the store it talks to, whether the connection
    is up, the port the HTTP server was told to listen on, the intervals
    at which [pollJobs] has been scheduled, and the code it exited
    with. *)
Module Process.
Record t := {
  store : World;
  connected : bool;
  server : option Setting;
  timers : list Setting;
  exit_code : option Z
}.
End Process.

Definition lift_store {A} (m : M World A) : M Process.t A :=
  fun env p =>
    let '(r, w) := m env (Process.store p) in
    (r, {| Process.store := w; Process.connected := Process.connected p;
           Process.server := Process.server p; Process.timers := Process.timers p;
           Process.exit_code := Process.exit_code p |}).

(** [await mongoose.connect(MONGODB_URI)] *)
Definition mongoose_connect (h : Host.t) : M Process.t unit :=
  fun _ p =>
    match Host.connect h with
    | Some e => (Throw e, p)
    | None =>
        (Ok tt, {| Process.store := Process.store p; Process.connected := true;
                   Process.server := Process.server p;
                   Process.timers := Process.timers p;
                   Process.exit_code := Process.exit_code p |})
    end.

(** [app.listen(PORT, ...)] *)
Definition app_listen (h : Host.t) (port : Setting) : M Process.t unit :=
  fun _ p =>
    match Host.listen h with
    | Some e => (Throw e, p)
    | None =>
        (Ok tt, {| Process.store := Process.store p;
                   Process.connected := Process.connected p;
                   Process.server := Some port;
                   Process.timers := Process.timers p;
                   Process.exit_code := Process.exit_code p |})
    end.

(** [setInterval(pollJobs, ms)] *)
Definition setInterval_pollJobs (ms : Setting) : M Process.t unit :=
  fun _ p =>
    (Ok tt, {| Process.store := Process.store p;
               Process.connected := Process.connected p;
               Process.server := Process.server p;
               Process.timers := Process.timers p ++ [ms];
               Process.exit_code := Process.exit_code p |}).

(** [process.exit(code)] *)
Definition process_exit (code : Z) : M Process.t unit :=
  fun _ p =>
    (Ok tt, {| Process.store := Process.store p;
               Process.connected := Process.connected p;
               Process.server := Process.server p;
               Process.timers := Process.timers p;
               Process.exit_code := Some code |}).

Definition startWorker (h : Host.t) : M Process.t unit :=
  try_catch
    ((* Connect to MongoDB *)
     mongoose_connect h >>>
     (* Start Express server *)
     app_listen h (setting (Host.PORT h) 3001) >>>
     (* Start polling *)
     setInterval_pollJobs (setting (Host.POLL_INTERVAL h) 5000) >>>
     (* Initial poll *)
     lift_store pollJobs)
    (fun error =>
       lift_store (logger lvl_error
                     [Txt "❌ Failed to start worker: "; Txt (message error)]) >>>
       process_exit 1).

(** What [/stats] reports for a job collection when the store answers. *)
Definition stats_of (collection : gmap N Job.t) : Stats.t :=
  {| Stats.pending := length (List.filter (stats_filter pending) (docs collection));
     Stats.processing := length (List.filter (stats_filter processing) (docs collection));
     Stats.completed := length (List.filter (stats_filter completed) (docs collection));
     Stats.failed := length (List.filter (stats_filter failed) (docs collection)) |}.

Definition stats_total (s : Stats.t) : nat :=
  (Stats.pending s + Stats.processing s + Stats.completed s + Stats.failed s)%nat.
(** ** A small store and some environments, for the worked examples *)
Module Sample.

Definition data0 : JobData.t :=
  {| JobData.ticketId := Some 7%N;
     JobData.recipientEmail := None;
     JobData.subject := None;
     JobData.textBody := None;
     JobData.htmlBody := None;
     JobData.fromName := None;
     JobData.attachmentBase64 := Some "QUJD";
     JobData.attachmentFilename := Some "ticket.png" |}.

(** The same payload without a ticket reference. *)
Definition data_no_ticket : JobData.t :=
  {| JobData.ticketId := None;
     JobData.recipientEmail := None;
     JobData.subject := None;
     JobData.textBody := None;
     JobData.htmlBody := None;
     JobData.fromName := None;
     JobData.attachmentBase64 := Some "QUJD";
     JobData.attachmentFilename := Some "ticket.png" |}.

Definition mk_job (id : N) (d : JobData.t) (st : Status) (r m created : Z) : Job.t :=
  {| Job._id := id; Job.job_type := send_email; Job.data := d;
     Job.status := st; Job.result := None; Job.error := None;
     Job.retries := r; Job.maxRetries := m; Job.nextRetryAt := None;
     Job.created_at := created; Job.updated_at := created |}.

(** A fresh job, a job on its last retry, a job without a ticket
    reference, and a job whose own ceiling is above the poll's. *)
Definition job1 : Job.t := mk_job 1 data0 pending 0 3 100.
Definition job_no_ticket : Job.t := mk_job 1 data_no_ticket pending 0 3 100.
Definition job2 : Job.t := mk_job 2 data0 pending 0 3 200.
Definition job_ceiling5 : Job.t := mk_job 4 data0 pending 3 5 300.

(** A ticket with its event in place, for composing messages. *)
Definition ticket7 : Ticket.t :=
  {| Ticket._id := 7%N;
     Ticket.ticket_number := Some "T-0007";
     Ticket.event := Some {| Event.name := Some "Meetup" |};
     Ticket.status := Some "generated";
     Ticket.imageUrl := None;
     Ticket.ticket_details :=
       Some {| TicketDetails.name := Some "Ann";
               TicketDetails.email := Some "ann@example.org" |};
     Ticket.timestamp := None |}.

(** The ticket the sample stores hold: it refers to no event. *)
Definition ticket_plain : Ticket.t :=
  {| Ticket._id := 7%N;
     Ticket.ticket_number := Some "T-0007";
     Ticket.event := None;
     Ticket.status := Some "generated";
     Ticket.imageUrl := None;
     Ticket.ticket_details :=
       Some {| TicketDetails.name := Some "Ann";
               TicketDetails.email := Some "ann@example.org" |};
     Ticket.timestamp := None |}.

Definition mk_credential (port : Z) (active : bool) (limit : option Z) (usage : Z)
  : EmailCredential.t :=
  {| EmailCredential._id := 3%N;
     EmailCredential.name := "main";
     EmailCredential.email := "tickets@example.org";
     EmailCredential.smtp_server := "smtp.example.org";
     EmailCredential.smtp_port := port;
     EmailCredential.username := "tickets";
     EmailCredential.password := "secret";
     EmailCredential.is_active := active;
     EmailCredential.daily_limit := limit;
     EmailCredential.daily_usage := usage |}.

Definition credential587 : EmailCredential.t := mk_credential 587 true (Some 10) 2.
Definition credential_spent : EmailCredential.t := mk_credential 587 true (Some 10) 10.

Definition mk_world (js : list Job.t) (cs : list EmailCredential.t) : World :=
  {| jobs := list_to_map ((fun j => (Job._id j, j)) <$> js);
     tickets := {[ 7%N := ticket_plain ]};
     credentials := list_to_map ((fun c => (EmailCredential._id c, c)) <$> cs);
     tick := 0;
     trace := [] |}.

Definition world1 : World := mk_world [job1] [credential587].
Definition world_no_ticket : World := mk_world [job_no_ticket; job2] [credential587].
Definition world_ceiling5 : World := mk_world [job_ceiling5] [credential587].

Definition store_down : Err := {| code := None; message := "store unreachable" |}.
Definition timed_out : Err := {| code := Some "ETIMEDOUT"; message := "Connection timeout" |}.
Definition refused : Err := {| code := Some "EAUTH"; message := "Invalid login" |}.

Definition info1 : Info.t := {| Info.messageId := "<1@example.org>" |}.

(** Everything works. *)
Definition env_ok : Env :=
  {| db_fault := fun _ => None;
     smtp_verify := fun _ _ => None;
     smtp_sendMail := fun _ _ _ => Ok info1;
     clock := fun n => 1000 + Z.of_nat n |}.

(** The submission port times out; the implicit-TLS port works. *)
Definition env_timeout587 : Env :=
  {| db_fault := fun _ => None;
     smtp_verify := fun _ tr =>
       if (Transport.port tr =? 587)%Z then Some timed_out else None;
     smtp_sendMail := fun _ _ _ => Ok info1;
     clock := fun n => 1000 + Z.of_nat n |}.

(** The server rejects the login. *)
Definition env_refused : Env :=
  {| db_fault := fun _ => None;
     smtp_verify := fun _ _ => Some refused;
     smtp_sendMail := fun _ _ _ => Ok info1;
     clock := fun n => 1000 + Z.of_nat n |}.

(** Everything works, except that the store rejects the operation
    issued at instant [n]. *)
Definition env_store_down_at (n : nat) : Env :=
  {| db_fault := fun t => if (t =? n)%nat then Some store_down else None;
     smtp_verify := fun _ _ => None;
     smtp_sendMail := fun _ _ _ => Ok info1;
     clock := fun t => 1000 + Z.of_nat t |}.

(** Everything works until instant [n]; from then on the store rejects
  every operation. *)
Definition env_store_down_from (n : nat) : Env :=
{| db_fault := fun t => if (n <=? t)%nat then Some store_down else None;
   smtp_verify := fun _ _ => None;
   smtp_sendMail := fun _ _ _ => Ok info1;
   clock := fun t => 1000 + Z.of_nat t |}.

End Sample.


(** ** More sample data *)
Module Cases.

(** One send away from its daily limit. *)
Definition credential_nearly_spent : EmailCredential.t :=
  Sample.mk_credential 587 true (Some 3) 2.

Definition world_two_jobs : World :=
  Sample.mk_world [Sample.job1; Sample.job2] [credential_nearly_spent].

(** A job that a crashed worker left [processing]. *)
Definition job_orphan : Job.t := Sample.mk_job 5 Sample.data0 processing 1 3 50.

Definition world_orphan : World :=
  Sample.mk_world [job_orphan; Sample.job1] [Sample.credential587].


(** A store whose ticket refers to an event. *)
Definition world_event_ticket : World :=
  {| jobs := {[ 1%N := Sample.job1 ]};
     tickets := {[ 7%N := Sample.ticket7 ]};
     credentials := {[ 3%N := Sample.credential587 ]};
     tick := 0;
     trace := [] |}.

End Cases.
(** ** Symbolic execution *)

Lemma events_since_app w w' evs :
  trace w' = trace w ++ evs -> events_since w w' = evs.
Proof. intros H. unfold events_since. rewrite H. apply drop_app_length. Qed.

Ltac unfold_run :=
  cbv [processEmailJob call try_catch attempt on_error deliver sendEmail
       bind ret throw liftW get_job update_job new_Date logger
       Job_save Ticket_findById Ticket_save EmailCredential_findOne
       EmailCredential_findByIdAndUpdate_inc db_op
       transporter_verify transporter_sendMail transporter_close sleep].

Ltac red_world :=
  cbn [world doc tick trace jobs tickets credentials record advance
       with_jobs with_tickets with_credentials fst snd
       Job._id Job.data Job.retries Job.maxRetries Job.status Job.error
       Job.result Job.job_type Job.created_at Job.updated_at
       Job.set_status Job.set_retries Job.set_updated_at Job.set_result
       Job.set_error].

(** One step of the run: case on the next answer of the environment or
    of the store. *)
Ltac step :=
  match goal with
  | H : store_accepts ?env _ |- context [match db_fault ?env ?t with _ => _ end] =>
      rewrite (H t) by (red_world; lia)
  | |- context [match db_fault ?env ?t with _ => _ end] =>
      destruct (db_fault env t) eqn:?
  | |- context [match JobData.ticketId ?d with _ => _ end] =>
      destruct (JobData.ticketId d) eqn:?
  | |- context [match @lookup _ _ _ _ ?k ?m with _ => _ end] =>
      destruct (m !! k) eqn:?
  | |- context [match Ticket.event ?t with _ => _ end] =>
      destruct (Ticket.event t) eqn:?
  | |- context [match List.find ?f ?l with _ => _ end] =>
      destruct (List.find f l) eqn:?
  | |- context [match smtp_verify ?env ?t ?tr with _ => _ end] =>
      destruct (smtp_verify env t tr) eqn:?
  | |- context [match smtp_sendMail ?env ?t ?tr ?m with _ => _ end] =>
      destruct (smtp_sendMail env t tr m) eqn:?
  | |- context [if negb (truthy ?a) || negb (truthy ?b) then _ else _] =>
      destruct (negb (truthy a) || negb (truthy b)) eqn:?
  | |- context [if bool_decide ?P && bool_decide ?Q then _ else _] =>
      destruct (bool_decide P && bool_decide Q) eqn:?
  | |- context [if Z.leb ?a ?b then _ else _] =>
      destruct (Z.leb a b) eqn:?
  end.

Ltac run := unfold_run; red_world; repeat (step; red_world).

(** Reading the events of a finished run off its trace. *)
Ltac read_events :=
  repeat match goal with
  | |- context [events_since ?w ?w'] =>
      erewrite (events_since_app w w')
        by (red_world; rewrite <- ?app_assoc; reflexivity)
  end;
  cbn [app].

Ltac in_events :=
  cbn [In]; solve [repeat (first [left; reflexivity | right])].

(** ** The port fallback of the delivery step *)

Lemma fallback_due_decide credential e :
  bool_decide (code e = Some "ETIMEDOUT")
  && bool_decide (EmailCredential.smtp_port credential = 587) = true
  <-> fallback_due credential (Throw e).
Proof.
  rewrite andb_true_iff, !bool_decide_eq_true. split.
  - intros [? ?]. by exists e.
  - intros (e' & [= <-] & ? & ?). done.
Qed.

Lemma fallback_not_due_ok credential info : ~ fallback_due credential (Ok info).
Proof. by intros (e & ? & _). Qed.

Lemma sendEmail_calls_app a b :
  sendEmail_calls (a ++ b) = (sendEmail_calls a + sendEmail_calls b)%nat.
Proof. unfold sendEmail_calls. by rewrite List.filter_app, length_app. Qed.

(** A call of [sendEmail] opens with the [verify] on its transport and
    verifies nothing else. *)
Lemma sendEmail_events credential emailOptions (usePort465 : bool) env w :
  let port := if usePort465 then 465 else EmailCredential.smtp_port credential in
  exists r rest,
    trace (snd (sendEmail credential emailOptions usePort465 env w))
    = trace w ++ EvVerify (createTransport credential port (port =? 465)%Z) r :: rest
    /\ sendEmail_calls rest = 0%nat.
Proof. run; rewrite <- ?app_assoc; eauto. Qed.

(** ** One run of [processEmailJob], event by event *)

(** Whatever the environment does: the run opens with the claim write;
    if that write is rejected nothing is read and nothing is sent; every
    later job write closes the attempt; [sendEmail] is called at most
    twice; no other job document is touched. *)
Lemma processEmailJob_events job env w :
  let w' := snd (processEmailJob job env w) in
  exists rest,
    trace w' = trace w ++ EvJobSave (claimed env w job) (db_fault env (tick w)) :: rest
    /\ (db_fault env (tick w) <> None -> forallb is_write_or_log rest = true)
    /\ Forall (closing_write job) rest
    /\ claim_ids rest = []
    /\ (sendEmail_calls rest <= 2)%nat
    /\ (forall k, k <> Job._id job -> jobs w' !! k = jobs w !! k)
    /\ (forall k j, jobs w' !! k = Some j -> jobs w !! k = Some j \/ Job._id j = k)
    /\ (tick w < tick w')%nat.
Proof.
  unfold claimed.
  run.
  all: rewrite <- ?app_assoc; cbn [app]; eexists; split; [reflexivity|].
  all: split_and!; [try done| | | | | |].
  all: try (repeat constructor; cbn; auto; fail).
  all: try (cbv [sendEmail_calls List.filter is_verify length]; lia).
  all: try (intros k Hk; rewrite ?lookup_insert_ne by done; done).
  all: try (intros k j' H;
            repeat (apply lookup_insert_Some in H as [[<- <-]|[? H]];
                    [right; reflexivity|]);
            left; exact H).
  all: lia.
Qed.

(** The fields of the document object that an attempt leaves alone, and
    the one it counts up. *)
Lemma attempt_doc env w job :
  let f := snd (attempt env {| world := w; doc := job |}) in
  Job._id (doc f) = Job._id job
  /\ Job.retries (doc f) = Job.retries job + 1
  /\ Job.maxRetries (doc f) = Job.maxRetries job
  /\ Job.job_type (doc f) = Job.job_type job
  /\ Job.created_at (doc f) = Job.created_at job
  /\ (tick w < tick (world f))%nat.
Proof. run; split_and!; (reflexivity || lia). Qed.

(** The [catch] block when the store takes its write. *)
Lemma failure_commit env w job e f :
  attempt env {| world := w; doc := job |} = (Throw e, f) ->
  db_fault env (tick (world f)) = None ->
  exists w' saved,
    processEmailJob job env w = (Ok false, w')
    /\ jobs w' !! Job._id job = Some saved
    /\ Job.error saved = Some (message e)
    /\ Job.retries saved = Job.retries job + 1
    /\ Job.maxRetries saved = Job.maxRetries job
    /\ Job.job_type saved = Job.job_type job
    /\ Job.status saved = status_after_failure job
    /\ tickets w' = tickets (world f)
    /\ credentials w' = credentials (world f).
Proof.
  intros Ha Hdb.
  destruct (attempt_doc env w job) as (Hid & Hr & Hm & Hty & _).
  rewrite Ha in *. cbn [snd] in *.
  unfold processEmailJob, call, try_catch. rewrite Ha.
  destruct f as [wf jf]. cbn [world doc] in *.
  unfold status_after_failure. rewrite <- Hm, <- Hr.
  unfold_run; red_world.
  destruct (Job.maxRetries jf <=? Job.retries jf)%Z; red_world; rewrite Hdb.
  all: do 2 eexists; split; [reflexivity|].
  all: red_world; rewrite Hid, lookup_insert_eq.
  all: split_and!; try reflexivity; try assumption.
Qed.


(** ** Queries *)

Lemma docs_lookup {A} (m : gmap N A) (a : A) :
  In a (docs m) <-> exists k, m !! k = Some a.
Proof.
  unfold docs. rewrite <- list_elem_of_In, list_elem_of_fmap. split.
  - intros ([k a'] & -> & H). exists k. by apply elem_of_map_to_list.
  - intros [k H]. exists (k, a). split; [done|]. by apply elem_of_map_to_list.
Qed.

Lemma findOne_Some {A} (filter : A -> bool) (m : gmap N A) a :
  List.find filter (docs m) = Some a ->
  (exists k, m !! k = Some a) /\ filter a = true.
Proof. intros [H ?]%find_some. split; [by apply docs_lookup|done]. Qed.


Section find_sort_limit.
Context {A : Type} (filter : A -> bool) (order : A -> A -> Prop).
Context `{!forall a b, Decision (order a b)} `{!Total order} `{!Transitive order}.

Lemma filter_sublist (l : list A) : List.filter filter l `sublist_of` l.
Proof.
    induction l as [|a l IH]; cbn; [constructor|].
    destruct (filter a); by constructor.
Qed.

Lemma find_sort_limit_spec n (m : gmap N A) :
    let batch := find_sort_limit filter order n m in
    (length batch <= n)%nat
    /\ StronglySorted order batch
    /\ (forall a, a ∈ batch -> (exists k, m !! k = Some a) /\ filter a = true)
    /\ (forall k a, m !! k = Some a -> filter a = true ->
          a ∈ batch
          \/ (length batch = n /\ forall b, b ∈ batch -> order b a)).
Proof.
    unfold find_sort_limit.
    set (sorted := merge_sort order (List.filter filter (docs m))).
    assert (Hperm : sorted ≡ₚ List.filter filter (docs m))
      by apply merge_sort_Permutation.
    assert (Hsorted : StronglySorted order sorted)
      by (apply StronglySorted_merge_sort; apply _).
    assert (Hin : forall a, a ∈ sorted <-> (exists k, m !! k = Some a) /\ filter a = true).
    { intros a. rewrite Hperm, list_elem_of_In, filter_In, docs_lookup. done. }
    rewrite <- (take_drop n sorted) in Hsorted.
    cbn zeta. split_and!.
    - rewrite length_take. lia.
    - by apply StronglySorted_app_1_l in Hsorted.
    - intros a Ha. apply Hin. eapply elem_of_take in Ha as (i & Hi & _).
      by eapply list_elem_of_lookup_2.
    - intros k a Hk Hf.
      assert (Ha : a ∈ sorted) by (apply Hin; eauto).
      rewrite <- (take_drop n sorted), elem_of_app in Ha.
      destruct Ha as [Ha|Ha]; [by left|right]. split.
      + apply length_take_le.
        destruct (decide (n <= length sorted)%nat) as [|Hn]; [done|].
        rewrite drop_ge in Ha by lia. by apply elem_of_nil in Ha.
      + intros b Hb. by eapply StronglySorted_app_1_elem_of.
Qed.

  (** No document is selected twice. *)
Lemma find_sort_limit_NoDup (id : A -> N) n (m : gmap N A) :
    keyed id m -> NoDup (id <$> find_sort_limit filter order n m).
Proof.
    intros Hk. unfold find_sort_limit.
    eapply sublist_NoDup; [|apply fmap_sublist, sublist_take].
    rewrite merge_sort_Permutation.
    eapply sublist_NoDup; [|apply fmap_sublist, filter_sublist].
    unfold docs.
    assert (id <$> (map_to_list m).*2 = (map_to_list m).*1) as ->.
    { rewrite <- list_fmap_compose. apply list_fmap_ext.
      intros i [k a] Hi%list_elem_of_lookup_2%elem_of_map_to_list. by apply Hk. }
    apply NoDup_fst_map_to_list.
Qed.
End find_sort_limit.

Global Instance by_created_at_total : Total by_created_at.
Proof. intros a b. unfold by_created_at. lia. Qed.
Global Instance by_created_at_trans : Transitive by_created_at.
Proof. intros a b c. unfold by_created_at. lia. Qed.
Global Instance by_priority_total : Total SharedFs.by_priority_then_created_at.
Proof. intros a b. unfold SharedFs.by_priority_then_created_at. lia. Qed.
Global Instance by_priority_trans : Transitive SharedFs.by_priority_then_created_at.
Proof. intros a b c. unfold SharedFs.by_priority_then_created_at. lia. Qed.

Lemma poll_filter_true j :
  poll_filter j = true <->
  Job.job_type j = send_email /\ Job.status j = pending /\ Job.retries j < 3.
Proof.
  unfold poll_filter.
  rewrite !andb_true_iff, !bool_decide_eq_true, Z.ltb_lt. tauto.
Qed.

Lemma claim_ids_app a b : claim_ids (a ++ b) = claim_ids a ++ claim_ids b.
Proof. apply omap_app. Qed.

Lemma for_each_job_cons job batch env w :
  for_each_job (job :: batch) env w =
  match processEmailJob job env w with
  | (Ok _, w1) => for_each_job batch env (advance (record (EvSleep 1000) w1))
  | (Throw e, w1) => (Throw e, w1)
  end.
Proof. reflexivity. Qed.

Lemma for_each_job_spec batch env w :
  let r := for_each_job batch env w in
  exists evs,
    trace (snd r) = trace w ++ evs
    /\ claim_ids evs `prefix_of` (Job._id <$> batch)
    /\ (fst r = Ok tt -> claim_ids evs = Job._id <$> batch)
    /\ (forall k, k ∉ (Job._id <$> batch) -> jobs (snd r) !! k = jobs w !! k)
    /\ (forall k j, jobs (snd r) !! k = Some j -> jobs w !! k = Some j \/ Job._id j = k).
Proof.
  revert w. induction batch as [|job batch IH]; intros w; cbn zeta.
  { exists []. cbn. rewrite app_nil_r. split_and!; auto. }
  rewrite for_each_job_cons.
  destruct (processEmailJob_events job env w)
    as (rest & Htr & _ & _ & Hids & _ & Hframe & Hkeys & _).
  destruct (processEmailJob job env w) as [[b|e] w1] eqn:Hp; cbn [fst snd] in *.
  - destruct (IH (advance (record (EvSleep 1000) w1)))
      as (evs & Htr2 & Hpre & Hall & Hframe2 & Hkeys2).
    destruct (for_each_job batch env _) as [r w2]; cbn [fst snd] in *.
    cbn [advance record trace jobs] in *.
    exists (EvJobSave (claimed env w job) (db_fault env (tick w))
              :: rest ++ EvSleep 1000 :: evs).
    split.
    { rewrite Htr2, Htr, <- !app_assoc. reflexivity. }
    assert (Hc : claim_ids (EvJobSave (claimed env w job) (db_fault env (tick w))
                              :: rest ++ EvSleep 1000 :: evs)
                 = Job._id job :: claim_ids evs).
    { change (?x :: ?l ++ ?y :: ?l') with ([x] ++ l ++ [y] ++ l').
      rewrite !claim_ids_app, Hids. reflexivity. }
    rewrite Hc. split_and!.
    + rewrite fmap_cons. apply prefix_cons, Hpre.
    + intros Hr. rewrite fmap_cons. f_equal. by apply Hall.
    + intros k Hk. rewrite fmap_cons, not_elem_of_cons in Hk. destruct Hk.
      rewrite Hframe2, Hframe; done.
    + intros k j Hj. apply Hkeys2 in Hj as [Hj|]; [|by right]. by apply Hkeys.
  - eexists. split; [exact Htr|].
    change (?x :: ?l) with ([x] ++ l) at 1.
    rewrite claim_ids_app, Hids, fmap_cons. split_and!.
    + apply prefix_cons, prefix_nil.
    + discriminate.
    + intros k Hk. rewrite not_elem_of_cons in Hk. destruct Hk. by apply Hframe.
    + done.
Qed.

(** ** One poll cycle *)

Lemma pollJobs_unfold env w :
  pollJobs env w =
  match db_fault env (tick w) with
  | Some e =>
      (Ok tt, record (EvLog lvl_error [Txt "❌ Polling error: "; Txt (message e)])
                     (advance (record (EvJobFind (Some e)) w)))
  | None =>
      match for_each_job (poll_query (jobs w)) env
                         (advance (record (EvJobFind None) w)) with
      | (Ok u, w1) => (Ok u, w1)
      | (Throw e, w1) =>
          (Ok tt, record (EvLog lvl_error [Txt "❌ Polling error: "; Txt (message e)]) w1)
      end
  end.
Proof.
  unfold pollJobs, try_catch, bind, Job_find, db_op, poll_query, logger.
  destruct (db_fault env (tick w)); [reflexivity|].
  destruct (find_sort_limit poll_filter by_created_at 5 (jobs w)); reflexivity.
Qed.

Lemma pollJobs_spec env w :
  let w' := snd (pollJobs env w) in
  let batch := poll_query (jobs w) in
  fst (pollJobs env w) = Ok tt
  /\ exists evs,
       trace w' = trace w ++ EvJobFind (db_fault env (tick w)) :: evs
       /\ claim_ids evs `prefix_of` (Job._id <$> batch)
       /\ (forall k, k ∉ (Job._id <$> batch) -> jobs w' !! k = jobs w !! k)
       /\ (forall k j, jobs w' !! k = Some j -> jobs w !! k = Some j \/ Job._id j = k)
       /\ (forall e, db_fault env (tick w) = Some e ->
             jobs w' = jobs w /\ tickets w' = tickets w
             /\ credentials w' = credentials w
             /\ evs = [EvLog lvl_error [Txt "❌ Polling error: "; Txt (message e)]]).
Proof.
  cbn zeta. rewrite pollJobs_unfold.
  destruct (db_fault env (tick w)) as [e|] eqn:Hdb.
  { split; [reflexivity|]. eexists. cbn [snd record advance trace jobs].
    split; [rewrite <- app_assoc; reflexivity|].
    split_and!; auto.
    - apply prefix_nil.
    - intros e' [= <-]. auto. }
  destruct (for_each_job_spec (poll_query (jobs w)) env
              (advance (record (EvJobFind None) w)))
    as (evs & Htr & Hpre & _ & Hframe & Hkeys).
  destruct (for_each_job _ env _) as [[[]|e] w1]; cbn [fst snd] in *;
    cbn [advance record trace jobs] in *.
  - split; [reflexivity|]. exists evs.
    rewrite Htr, <- app_assoc. split_and!; auto. discriminate.
  - split; [reflexivity|].
    exists (evs ++ [EvLog lvl_error [Txt "❌ Polling error: "; Txt (message e)]]).
    rewrite Htr, <- !app_assoc. split; [reflexivity|].
    rewrite claim_ids_app, app_nil_r. split_and!; auto. discriminate.
Qed.

Lemma processEmailJob_sendEmail_calls job env w :
  (sendEmail_calls (events_since w (snd (processEmailJob job env w))) <= 2)%nat.
Proof.
  destruct (processEmailJob_events job env w) as (rest & Htr & _ & _ & _ & H & _).
  by rewrite (events_since_app _ _ _ Htr).
Qed.

(** A poll cycle keeps documents under their [_id]. *)
Lemma pollJobs_keyed env w :
  keyed Job._id (jobs w) -> keyed Job._id (jobs (snd (pollJobs env w))).
Proof.
  intros Hk k j Hj.
  destruct (pollJobs_spec env w) as (_ & evs & _ & _ & _ & Hkeys & _).
  apply Hkeys in Hj as [Hj|]; [by apply Hk|done].
Qed.

(** A poll cycle leaves alone every job its query does not select. *)
Lemma pollJobs_unselected env w k j :
  keyed Job._id (jobs w) ->
  jobs w !! k = Some j ->
  poll_filter j = false ->
  jobs (snd (pollJobs env w)) !! k = Some j.
Proof.
  intros Hk Hj Hf.
  destruct (pollJobs_spec env w) as (_ & evs & _ & _ & Hframe & _).
  rewrite Hframe; [done|].
  intros (j' & -> & Hj')%list_elem_of_fmap.
  destruct (find_sort_limit_spec poll_filter by_created_at 5 (jobs w))
    as (_ & _ & Hsel & _).
  apply Hsel in Hj' as [[k' Hk'] Hf'].
  rewrite (Hk _ _ Hk') in Hj. simplify_eq. congruence.
Qed.

Lemma SharedFs_poll_filter_true MAX_ATTEMPTS j :
  SharedFs.poll_filter MAX_ATTEMPTS j = true <->
  SharedFs.Job.job_type j = SharedFs.send_email
  /\ SharedFs.Job.status j = SharedFs.pending
  /\ SharedFs.Job.attempts j < SharedFs.attempts_ceiling MAX_ATTEMPTS.
Proof.
  unfold SharedFs.poll_filter.
  destruct (SharedFs.Job.job_type j), (SharedFs.Job.status j);
    rewrite ?Z.ltb_lt; intuition congruence.
Qed.

(** ** Credentials *)

Lemma eligible_true c :
  eligible c = true <->
  EmailCredential.is_active c = true
  /\ forall limit, EmailCredential.daily_limit c = Some limit ->
                   EmailCredential.daily_usage c < limit.
Proof.
  unfold eligible. rewrite andb_true_iff.
  destruct (EmailCredential.daily_limit c) as [l|].
  - rewrite Z.ltb_lt. split; intros [? H]; split; auto.
    by intros ? [= <-].
  - split; intros [? _]; split; auto. discriminate.
Qed.


(** An error of the [try] block that comes after an accepted send was
    raised by one of the three commit steps. *)
Lemma failure_after_delivery_source env w job e f tr mail info :
  attempt env {| world := w; doc := job |} = (Throw e, f) ->
  In (EvSendMail tr mail (Ok info)) (events_since w (world f)) ->
  let evs := events_since w (world f) in
  (exists id, In (EvCredentialInc id (Some e)) evs)
  \/ (exists j, In (EvJobSave j (Some e)) evs /\ Job.status j = completed)
  \/ (exists k, In (EvTicketSave k (Some e)) evs).
Proof.
  intros Ha Hin. cbn zeta. revert Ha Hin.
  run; intros Ha; cbn in Ha; simplify_eq; read_events; cbn [In]; intros Hin.
  all: try (exfalso; intuition discriminate).
  all: first
    [ left; eexists; in_events
    | right; left; eexists; split; [in_events|reflexivity]
    | right; right; eexists; in_events ].
Qed.

(** When the last thing an attempt did was a failed SMTP operation, the
    attempt fails with the error of that operation. *)
Lemma smtp_failure_ends_attempt env w job e f ev e' :
  attempt env {| world := w; doc := job |} = (Throw e, f) ->
  last (events_since w (world f)) = Some ev ->
  smtp_failure ev = Some e' ->
  e = e'.
Proof.
  intros Ha Hl Hs. revert Ha Hl.
  run; intros Ha; cbn in Ha; simplify_eq; read_events; cbn [last]; intros Hl.
  all: simplify_eq; cbn in Hs; by simplify_eq.
Qed.

(** ** Stores built from a list of documents *)

Lemma keyed_list_to_map {A} (id : A -> N) (l : list A) :
  keyed id (list_to_map ((fun a => (id a, a)) <$> l)).
Proof.
  intros k a H%elem_of_list_to_map_2.
  by apply list_elem_of_fmap in H as (a' & [= -> ->] & _).
Qed.

Lemma keyed_singleton {A} (id : A -> N) (a : A) :
  keyed id ({[ id a := a ]} : gmap N A).
Proof. by intros k b [<- <-]%lookup_singleton_Some. Qed.


(** * Properties of the job lifecycle *)

(** ** C1: the failure commit *)

(** C1 (as amended). When the attempt of [processEmailJob] fails with an
    error [e] and the store accepts the write of the [catch] block: the
    job is stored with [error] set to the message of [e], with its
    incremented [retries], and with status [failed] if that counter has
    reached [maxRetries] and [pending] otherwise; [processEmailJob]
    returns [false]. A [send_email] job left [pending] matches the poll
    query again as long as its [retries] is below 3. (When the store
    rejects that last write, the error leaves [processEmailJob].) *)
Theorem C1_failed_attempt env w job e f :
  attempt env {| world := w; doc := job |} = (Throw e, f) ->
  db_fault env (tick (world f)) = None ->
  exists w' saved,
    processEmailJob job env w = (Ok false, w')
    /\ jobs w' !! Job._id job = Some saved
    /\ Job.error saved = Some (message e)
    /\ Job.retries saved = Job.retries job + 1
    /\ Job.maxRetries saved = Job.maxRetries job
    /\ Job.status saved
       = (if (Job.maxRetries saved <=? Job.retries saved)%Z then failed else pending)
    /\ (Job.job_type job = send_email ->
        Job.status saved = pending ->
        Job.retries saved < 3 ->
        poll_filter saved = true).
Proof.
  intros Ha Hdb.
  destruct (failure_commit env w job e f Ha Hdb)
    as (w' & saved & Hrun & Hsaved & Herr & Hr & Hm & Hty & Hst & _).
  exists w', saved. rewrite Hr, Hm. split_and!; try done.
  intros Hj Hp H3. apply poll_filter_true. rewrite Hty. split_and!; [done|done|lia].
Qed.

(** A job without ticket reference, first attempt: back to [pending]. *)
Lemma C1_failed_attempt_witness :
  exists w' saved,
    processEmailJob Sample.job_no_ticket Sample.env_ok Sample.world_no_ticket
    = (Ok false, w')
    /\ jobs w' !! 1%N = Some saved
    /\ Job.error saved = Some "Ticket ID not found in job data"
    /\ Job.retries saved = 1
    /\ Job.maxRetries saved = 3
    /\ Job.status saved = pending.
Proof.
  destruct (C1_failed_attempt Sample.env_ok Sample.world_no_ticket
              Sample.job_no_ticket (Error "Ticket ID not found in job data")
              (snd (attempt Sample.env_ok
                      {| world := Sample.world_no_ticket;
                         doc := Sample.job_no_ticket |})))
    as (w' & saved & H1 & H2 & H3 & H4 & H5 & H6 & _).
  - vm_compute. reflexivity.
  - reflexivity.
  - exists w', saved. rewrite H6, H5, H4. by split_and!.
Defined.

(** The attempt fails (no ticket reference) and the store rejects the
    write of the [catch] block: [processEmailJob] does not return [false]
    but throws, and the stored job is still [processing], without
    [error]. *)
Lemma C1_counterexample :
  let env := Sample.env_store_down_at 1 in
  let run := processEmailJob Sample.job_no_ticket env Sample.world_no_ticket in
  fst (attempt env {| world := Sample.world_no_ticket; doc := Sample.job_no_ticket |})
  = Throw (Error "Ticket ID not found in job data")
  /\ fst run = Throw Sample.store_down
  /\ Job.status <$> jobs (snd run) !! 1%N = Some processing
  /\ Job.error <$> jobs (snd run) !! 1%N = Some None.
Proof. vm_compute. by split_and!. Qed.

(** ** C2: the port fallback *)

(** C2. For every credential and message: [deliver] calls [sendEmail] a
    second time, on port 465 with implicit TLS, if and only if the
    primary call failed with code [ETIMEDOUT] and the credential's port
    is 587; it then returns whatever that second call returns, success or
    failure; in every other case it returns what the primary call
    returned. [sendEmail] is called once or twice, never more, also over
    a whole run of [processEmailJob]; and an attempt whose last SMTP
    operation failed fails with the error of that operation. *)
Theorem C2_port_fallback credential emailOptions env w :
  let primary := sendEmail credential emailOptions false env w in
  let final := deliver credential emailOptions env w in
  let retried :=
    sendEmail credential emailOptions true env
      (record (EvLog lvl_warn [Txt "⚠️ Port 587 timeout, trying port 465..."])
              (snd primary)) in
  (fallback_due credential (fst primary)
   <-> sendEmail_calls (events_since w (snd final)) = 2%nat)
  /\ (~ fallback_due credential (fst primary)
      <-> sendEmail_calls (events_since w (snd final)) = 1%nat)
  /\ (fallback_due credential (fst primary) ->
      final = retried
      /\ exists r, In (EvVerify (createTransport credential 465 true) r)
                      (events_since w (snd final)))
  /\ (~ fallback_due credential (fst primary) -> final = primary)
  /\ (forall job,
        (sendEmail_calls (events_since w (snd (processEmailJob job env w))) <= 2)%nat)
  /\ (forall job e f ev e',
        attempt env {| world := w; doc := job |} = (Throw e, f) ->
        last (events_since w (world f)) = Some ev ->
        smtp_failure ev = Some e' ->
        e = e').
Proof.
  intros primary final retried.
  split_and!;
    [| | | |intros; apply processEmailJob_sendEmail_calls
     |apply smtp_failure_ends_attempt].
  all: subst primary final retried; unfold deliver, try_catch.
  all: destruct (sendEmail_events credential emailOptions false env w)
         as (r1 & rest1 & Ht1 & Hc1).
  all: destruct (sendEmail credential emailOptions false env w)
         as [[info|e] w1] eqn:Hp; cbn [fst snd] in *.
  all: try (destruct (bool_decide _ && bool_decide _) eqn:Hc;
            [apply fallback_due_decide in Hc
            |apply not_true_iff_false in Hc; rewrite fallback_due_decide in Hc]).
  all: cbv [bind logger throw]; cbn [fst snd].
  all: try match goal with
       | |- context [sendEmail ?c ?m true ?env ?w0] =>
           destruct (sendEmail_events c m true env w0) as (r2 & rest2 & Ht2 & Hc2);
           cbn [record trace] in Ht2; rewrite Ht1, <- !app_assoc in Ht2;
           try rewrite (events_since_app _ _ _ Ht2)
       end.
  all: try rewrite (events_since_app _ _ _ Ht1).
  all: try (pose proof (fallback_not_due_ok credential info)).
  all: unfold sendEmail_calls in *.
  all: repeat (cbn [List.filter is_verify app length];
               rewrite ?List.filter_app, ?length_app).
  all: try tauto; try (split; [tauto|lia]); try (split; [lia|tauto]).
  intros _. split; [reflexivity|]. exists r2.
  right. apply in_app_iff. right. right. by left.
Qed.

(** Port 587 times out, port 465 works: two calls, the second one on the
    implicit-TLS transport. *)
Lemma C2_port_fallback_witness :
  let mail := compose Sample.job1 Sample.ticket7 Sample.credential587
                      (Buffer_from "QUJD" "base64") in
  let final := deliver Sample.credential587 mail Sample.env_timeout587 Sample.world1 in
  fst final = Ok Sample.info1
  /\ sendEmail_calls (events_since Sample.world1 (snd final)) = 2%nat.
Proof.
  cbn zeta. split; [reflexivity|].
  apply (C2_port_fallback Sample.credential587
           (compose Sample.job1 Sample.ticket7 Sample.credential587
                    (Buffer_from "QUJD" "base64"))
           Sample.env_timeout587 Sample.world1).
  exists Sample.timed_out. split_and!; reflexivity.
Defined.

(** ** C3: the claim write comes first *)




(** ** C4: the success commit *)




(** ** C5: credential selection *)




(** ** C6: what a poll cycle selects *)

(** C6 (as amended). A poll cycle selects stored jobs with
    [job_type = send_email], [status = pending] and [retries] below the
    fixed ceiling 3 (the job's own [maxRetries] plays no part in the
    query), oldest first by [created_at], at most 5 of them; a matching
    job is left out only when the batch is full, and then it is no older
    than any job of the batch. No job is in the batch twice, and the
    jobs are claimed in batch order. In the older variant the ceiling is
    [MAX_ATTEMPTS || 3] and the order is descending [priority], then
    ascending [created_at]. *)
Theorem C6_poll_selection env w MAX_ATTEMPTS (older : gmap N SharedFs.Job.t) :
  let batch := poll_query (jobs w) in
  let w' := snd (pollJobs env w) in
  (forall j, j ∈ batch ->
     (exists k, jobs w !! k = Some j)
     /\ Job.job_type j = send_email /\ Job.status j = pending /\ Job.retries j < 3)
  /\ (forall k j,
        jobs w !! k = Some j ->
        Job.job_type j = send_email -> Job.status j = pending -> Job.retries j < 3 ->
        j ∈ batch
        \/ (length batch = 5%nat
            /\ forall b, b ∈ batch -> Job.created_at b <= Job.created_at j))
  /\ StronglySorted by_created_at batch
  /\ (length batch <= 5)%nat
  /\ (keyed Job._id (jobs w) -> NoDup (Job._id <$> batch))
  /\ claim_ids (events_since w w') `prefix_of` (Job._id <$> batch)
  /\ (let batch' := SharedFs.poll_query MAX_ATTEMPTS older in
      (forall j, j ∈ batch' ->
         (exists k, older !! k = Some j)
         /\ SharedFs.Job.job_type j = SharedFs.send_email
         /\ SharedFs.Job.status j = SharedFs.pending
         /\ SharedFs.Job.attempts j < SharedFs.attempts_ceiling MAX_ATTEMPTS)
      /\ (forall k j,
            older !! k = Some j ->
            SharedFs.poll_filter MAX_ATTEMPTS j = true ->
            j ∈ batch'
            \/ (length batch' = 5%nat
                /\ forall b, b ∈ batch' -> SharedFs.by_priority_then_created_at b j))
      /\ StronglySorted SharedFs.by_priority_then_created_at batch'
      /\ (length batch' <= 5)%nat).
Proof.
  cbn zeta.
  destruct (find_sort_limit_spec poll_filter by_created_at 5 (jobs w))
    as (Hlen & Hsorted & Hsel & Hall).
  destruct (find_sort_limit_spec (SharedFs.poll_filter MAX_ATTEMPTS)
              SharedFs.by_priority_then_created_at 5 older)
    as (Hlen' & Hsorted' & Hsel' & Hall').
  split_and!; try done.
  - intros j [? Hf%poll_filter_true]%Hsel. tauto.
  - intros k j Hj ? ? ?. apply (Hall k j Hj). by apply poll_filter_true.
  - apply find_sort_limit_NoDup; apply _.
  - destruct (pollJobs_spec env w) as (_ & evs & Htr & Hpre & _).
    rewrite (events_since_app _ _ _ Htr). exact Hpre.
  - intros j [? Hf%SharedFs_poll_filter_true]%Hsel'. tauto.
Qed.

(** Two pending jobs: both selected, the older one first, and claimed in
    that order. *)
Lemma C6_poll_selection_witness :
  poll_query (jobs Sample.world_no_ticket) = [Sample.job_no_ticket; Sample.job2]
  /\ Job.retries Sample.job2 < 3
  /\ claim_ids (events_since Sample.world_no_ticket
                  (snd (pollJobs Sample.env_ok Sample.world_no_ticket)))
     `prefix_of` [1%N; 2%N].
Proof.
  destruct (C6_poll_selection Sample.env_ok Sample.world_no_ticket None ∅)
    as (Hsel & _ & _ & _ & _ & Hclaims & _).
  split_and!.
  - reflexivity.
  - apply Hsel. change (poll_query (jobs Sample.world_no_ticket))
      with [Sample.job_no_ticket; Sample.job2].
    apply list_elem_of_further, list_elem_of_here.
  - exact Hclaims.
Defined.

(** A pending [send_email] job with [retries = 3] and [maxRetries = 5]
    has [retries < maxRetries], and the poll query does not select it:
    the cycle does nothing but the query. *)
Lemma C6_counterexample :
  let j := Sample.job_ceiling5 in
  jobs Sample.world_ceiling5 !! 4%N = Some j
  /\ Job.job_type j = send_email
  /\ Job.status j = pending
  /\ Job.retries j < Job.maxRetries j
  /\ poll_query (jobs Sample.world_ceiling5) = []
  /\ events_since Sample.world_ceiling5
       (snd (pollJobs Sample.env_ok Sample.world_ceiling5))
     = [EvJobFind None].
Proof. vm_compute. by split_and!. Qed.

(** ** C7: where errors stop *)




(** ** C8: terminal states *)

(** C8 (as amended). A job that the store holds as [completed] or
    [failed] when a poll cycle starts is the same document after that
    cycle, and after any number of cycles that run one after the other:
    the poll query does not select it and [processEmailJob] runs on
    selected jobs only. (Inside one run of [processEmailJob] a job already
    stored as [completed] can still be overwritten by the [catch]
    block, and a cycle that overlaps another one can run on a copy it
    queried before the job became [completed].) *)
Theorem C8_terminal_jobs_untouched n env w k j :
  keyed Job._id (jobs w) ->
  jobs w !! k = Some j ->
  Job.status j = completed \/ Job.status j = failed ->
  jobs (cycles n env w) !! k = Some j.
Proof.
  intros Hk Hj Hst. revert w Hk Hj.
  induction n as [|n IH]; intros w Hk Hj; [done|].
  cbn [cycles]. apply IH; [by apply pollJobs_keyed|].
  apply pollJobs_unselected; [done..|].
  apply not_true_is_false. rewrite poll_filter_true. intros (_ & Hp & _).
  destruct Hst; congruence.
Qed.

(** A completed job next to a pending one, two cycles. *)
Lemma C8_terminal_jobs_untouched_witness :
  let done := Sample.mk_job 1 Sample.data0 completed 1 3 100 in
  let w := Sample.mk_world [done; Sample.job2] [Sample.credential587] in
  jobs (cycles 2 Sample.env_ok w) !! 1%N = Some done.
Proof.
  cbn zeta.
  apply C8_terminal_jobs_untouched.
  - apply keyed_list_to_map.
  - reflexivity.
  - left. reflexivity.
Defined.

(** Two ways out of [completed]. Inside one run: the job is stored as
    [completed], then the ticket save is rejected and the [catch] block
    stores it as [pending]. Between overlapping cycles ([setInterval]
    does not wait for a cycle to end, and [/trigger] starts one at any
    time): a cycle queried the job while it was [pending]; before its
    loop gets to the job, another cycle has sent the mail and stored the
    job as [completed]; the loop then runs on its copy, the store sees
    the job go back to [processing], and the mail goes out again. *)
Lemma C8_counterexample :
  (let w' := snd (processEmailJob Sample.job1 (Sample.env_store_down_at 7)
                    Sample.world1) in
   accepted_statuses 1 (trace w') = [processing; completed; pending]
   /\ Job.status <$> jobs w' !! 1%N = Some pending)
  /\ (let batch := poll_query (jobs Sample.world1) in
      let w1 := snd (pollJobs Sample.env_ok Sample.world1) in
      let w2 := snd (for_each_job batch Sample.env_ok w1) in
      batch = [Sample.job1]
      /\ Job.status <$> jobs w1 !! 1%N = Some completed
      /\ accepted_statuses 1 (events_since w1 w2) = [processing; completed]
      /\ length (List.filter is_delivery (trace w2)) = 2%nat).
Proof. vm_compute. by split_and!. Qed.

(** ** C9: composing the message *)

(** C9. In the composed message: the subject is the job's subject, and
    ["Your Ticket for " + event name] (with ["Event"] for a missing
    name) when the job has none; the text is the job's text body, and
    ["Your ticket is attached."] when the job has none; the sender name is
    the job's, and ["Admin"] when the job has none; the recipient is the
    job's recipient address, and the address stored in the ticket details
    when the job has none. (A property counts as missing when it is
    [undefined], [null] or the empty string.) *)
Theorem C9_compose_defaults job ticket credential attachmentBuffer :
  let data := Job.data job in
  let mail := compose job ticket credential attachmentBuffer in
  (truthy (JobData.subject data) = false ->
   EmailOptions.subject mail
   = ("Your Ticket for " ++ or_default (Ticket.event ticket ≫= Event.name) "Event")%string)
  /\ (forall s, JobData.subject data = Some s -> s <> EmptyString ->
                EmailOptions.subject mail = s)
  /\ (truthy (JobData.textBody data) = false ->
      EmailOptions.text mail = "Your ticket is attached.")
  /\ (forall s, JobData.textBody data = Some s -> s <> EmptyString ->
                EmailOptions.text mail = s)
  /\ (truthy (JobData.fromName data) = false ->
      EmailOptions.from mail
      = (dquote ++ "Admin" ++ dquote ++ " <"
         ++ EmailCredential.email credential ++ ">")%string)
  /\ (forall s, JobData.fromName data = Some s -> s <> EmptyString ->
                EmailOptions.from mail
                = (dquote ++ s ++ dquote ++ " <"
                   ++ EmailCredential.email credential ++ ">")%string)
  /\ (forall r, JobData.recipientEmail data = Some r -> r <> EmptyString ->
                EmailOptions.to mail = Some r)
  /\ (truthy (JobData.recipientEmail data) = false ->
      EmailOptions.to mail = Ticket.ticket_details ticket ≫= TicketDetails.email).
Proof.
  cbn zeta. unfold compose. cbn [EmailOptions.subject EmailOptions.text
    EmailOptions.from EmailOptions.to].
  split_and!.
  - destruct (JobData.subject (Job.data job)) as [[|]|]; (discriminate || reflexivity).
  - intros s -> Hs. destruct s; [done|reflexivity].
  - destruct (JobData.textBody (Job.data job)) as [[|]|]; (discriminate || reflexivity).
  - intros s -> Hs. destruct s; [done|reflexivity].
  - destruct (JobData.fromName (Job.data job)) as [[|]|]; (discriminate || reflexivity).
  - intros s -> Hs. destruct s; [done|reflexivity].
  - intros r -> Hr. destruct r; [done|reflexivity].
  - unfold or_else. by intros ->.
Qed.

(** A job that brings no subject, text, sender name or recipient. *)
Lemma C9_compose_defaults_witness :
  let mail := compose Sample.job1 Sample.ticket7 Sample.credential587
                      (Buffer_from "QUJD" "base64") in
  EmailOptions.subject mail = "Your Ticket for Meetup"
  /\ EmailOptions.text mail = "Your ticket is attached."
  /\ EmailOptions.from mail
     = (dquote ++ "Admin" ++ dquote ++ " <tickets@example.org>")%string
  /\ EmailOptions.to mail = Some "ann@example.org".
Proof.
  destruct (C9_compose_defaults Sample.job1 Sample.ticket7 Sample.credential587
              (Buffer_from "QUJD" "base64"))
    as (Hs & _ & Ht & _ & Hf & _ & _ & Hr).
  cbn zeta. split_and!.
  - rewrite Hs; reflexivity.
  - rewrite Ht; reflexivity.
  - rewrite Hf; reflexivity.
  - rewrite Hr; reflexivity.
Defined.

(** ** C10: an error after the mail has gone out *)

(** C10 (as amended). When the mail server has accepted the send and the
    [try] block then fails with an error [e] (raised by the usage update,
    by the save of the completed job, or by the ticket save), and the
    store accepts the write of the [catch] block: [processEmailJob]
    returns [false];
    the job is stored with [error] set to the message of [e] and with
    status [pending], or [failed] once the incremented [retries] has
    reached [maxRetries]; and a [send_email] job left [pending] with
    fewer than 3 retries matches the poll query again, so the same mail
    can be sent once more. *)
Theorem C10_failure_after_delivery env w job e f tr mail info :
  attempt env {| world := w; doc := job |} = (Throw e, f) ->
  In (EvSendMail tr mail (Ok info)) (events_since w (world f)) ->
  db_fault env (tick (world f)) = None ->
  exists w' saved,
    processEmailJob job env w = (Ok false, w')
    /\ jobs w' !! Job._id job = Some saved
    /\ Job.error saved = Some (message e)
    /\ Job.retries saved = Job.retries job + 1
    /\ Job.status saved
       = (if (Job.maxRetries job <=? Job.retries saved)%Z then failed else pending)
    /\ ((exists id, In (EvCredentialInc id (Some e)) (events_since w (world f)))
        \/ (exists j, In (EvJobSave j (Some e)) (events_since w (world f))
                      /\ Job.status j = completed)
        \/ (exists k, In (EvTicketSave k (Some e)) (events_since w (world f))))
    /\ (Job.job_type job = send_email ->
        Job.retries saved < 3 ->
        Job.retries saved < Job.maxRetries job ->
        poll_filter saved = true).
Proof.
  intros Ha Hin Hdb.
  destruct (failure_commit env w job e f Ha Hdb)
    as (w' & saved & Hrun & Hsaved & Herr & Hr & Hm & Hty & Hst & _).
  exists w', saved. split_and!; try done.
  - rewrite Hst, Hr. reflexivity.
  - by eapply failure_after_delivery_source.
  - intros Hjt H3 Hmax. apply poll_filter_true. rewrite Hty, Hst.
    unfold status_after_failure. rewrite <- Hr.
    split_and!; [done| |done].
    destruct (Z.leb_spec (Job.maxRetries job) (Job.retries saved)); [lia|done].
Qed.

(** The mail goes out, the ticket save is rejected: the job is back to
    [pending] and matches the poll query. *)
Lemma C10_failure_after_delivery_witness :
  exists w' saved,
    processEmailJob Sample.job1 (Sample.env_store_down_at 7) Sample.world1
    = (Ok false, w')
    /\ jobs w' !! 1%N = Some saved
    /\ Job.error saved = Some "store unreachable"
    /\ Job.status saved = pending
    /\ poll_filter saved = true.
Proof.
  destruct (C10_failure_after_delivery (Sample.env_store_down_at 7) Sample.world1
              Sample.job1 Sample.store_down
              (snd (attempt (Sample.env_store_down_at 7)
                      {| world := Sample.world1; doc := Sample.job1 |}))
              (createTransport Sample.credential587 587 false)
              (compose (claimed (Sample.env_store_down_at 7) Sample.world1 Sample.job1)
                       Sample.ticket_plain Sample.credential587
                       (Buffer_from "QUJD" "base64"))
              Sample.info1)
    as (w' & saved & H1 & H2 & H3 & H4 & H5 & _ & H7).
  - vm_compute. reflexivity.
  - vm_compute. in_events.
  - reflexivity.
  - exists w', saved. rewrite H4 in H5, H7.
    split_and!; [exact H1|exact H2|exact H3|exact H5|].
    apply H7; [reflexivity|reflexivity|reflexivity].
Defined.

(** The mail goes out and the store is unreachable from the ticket save
    on: the write of the [catch] block is rejected too, [processEmailJob]
    throws instead of returning [false], and the stored job stays
    [completed], without [error], next to a ticket that is not marked. *)
Lemma C10_counterexample :
  let env := Sample.env_store_down_from 7 in
  let run := processEmailJob Sample.job1 env Sample.world1 in
  length (List.filter is_delivery (events_since Sample.world1 (snd run))) = 1%nat
  /\ fst (attempt env {| world := Sample.world1; doc := Sample.job1 |})
     = Throw Sample.store_down
  /\ fst run = Throw Sample.store_down
  /\ Job.status <$> jobs (snd run) !! 1%N = Some completed
  /\ Job.error <$> jobs (snd run) !! 1%N = Some None
  /\ Ticket.status <$> tickets (snd run) !! 7%N = Some (Some "generated").
Proof. vm_compute. by split_and!. Qed.

(** The same mail, delivered twice: the ticket save of the first cycle is
    rejected, the job goes back to [pending], the second cycle sends it
    again and counts the credential up a second time. *)
Example double_delivery :
  let w' := cycles 2 (Sample.env_store_down_at 8) Sample.world1 in
  length (List.filter is_delivery (trace w')) = 2%nat
  /\ EmailCredential.daily_usage <$> credentials w' !! 3%N = Some 4
  /\ Job.status <$> jobs w' !! 1%N = Some completed
  /\ Job.retries <$> jobs w' !! 1%N = Some 2.
Proof. vm_compute. by split_and!. Qed.

(** ** Worked scenarios *)

(** A fresh job, a valid ticket, one credential with quota, a working
    server: [completed] after one attempt, ticket [sent], usage up by
    one. *)
Example scenario_delivery_succeeds :
  let w' := snd (pollJobs Sample.env_ok Sample.world1) in
  Job.status <$> jobs w' !! 1%N = Some completed
  /\ Job.retries <$> jobs w' !! 1%N = Some 1
  /\ Ticket.status <$> tickets w' !! 7%N = Some (Some "sent")
  /\ EmailCredential.daily_usage <$> credentials w' !! 3%N = Some 3.
Proof. vm_compute. by split_and!. Qed.

(** The server rejects the login in three cycles in a row: [failed] after
    the third, with the last message, ticket and credential untouched. *)
Example scenario_three_failures :
  let w' := cycles 3 Sample.env_refused Sample.world1 in
  Job.status <$> jobs w' !! 1%N = Some failed
  /\ Job.retries <$> jobs w' !! 1%N = Some 3
  /\ Job.error <$> jobs w' !! 1%N = Some (Some "Invalid login")
  /\ Ticket.status <$> tickets w' !! 7%N = Some (Some "generated")
  /\ EmailCredential.daily_usage <$> credentials w' !! 3%N = Some 2
  /\ accepted_statuses 1 (trace w')
     = [processing; pending; processing; pending; processing; failed].
Proof. vm_compute. by split_and!. Qed.

(** Port 587 times out and port 465 works: [completed], one usage
    update, two calls of [sendEmail]. *)
Example scenario_fallback_succeeds :
  let w' := snd (pollJobs Sample.env_timeout587 Sample.world1) in
  Job.status <$> jobs w' !! 1%N = Some completed
  /\ EmailCredential.daily_usage <$> credentials w' !! 3%N = Some 3
  /\ sendEmail_calls (trace w') = 2%nat
  /\ length (List.filter is_delivery (trace w')) = 1%nat.
Proof. vm_compute. by split_and!. Qed.

(** No credential with quota left, fresh job: back to [pending] with one
    retry counted and nothing sent. *)
Example scenario_no_credential :
  let w := Sample.mk_world [Sample.job1] [Sample.credential_spent] in
  let w' := snd (pollJobs Sample.env_ok w) in
  Job.status <$> jobs w' !! 1%N = Some pending
  /\ Job.retries <$> jobs w' !! 1%N = Some 1
  /\ Job.error <$> jobs w' !! 1%N = Some (Some "No available email credentials")
  /\ sendEmail_calls (trace w') = 0%nat.
Proof. vm_compute. by split_and!. Qed.

(** A poll cycle that finds nothing to do changes no document. *)
Example scenario_idle_cycle :
  let w := Sample.mk_world [] [Sample.credential587] in
  let w' := snd (pollJobs Sample.env_ok w) in
  jobs w' = jobs w /\ tickets w' = tickets w /\ credentials w' = credentials w
  /\ trace w' = [EvJobFind None].
Proof. vm_compute. by split_and!. Qed.

(** * Further properties of the worker *)

(** ** Symbolic execution, once more *)

Ltac leb_props :=
  repeat match goal with
  | H : (_ <=? _)%Z = true |- _ => apply Z.leb_le in H
  | H : (_ <=? _)%Z = false |- _ => apply Z.leb_gt in H
  end.

Ltac solve_write :=
  cbv [is_attempt_write attempt_write same_identity]; red_world;
  cbn [Job.nextRetryAt];
  first [exact I | split_and!; first [reflexivity | lia | eauto]].

Ltac count_events :=
  cbv [count List.filter is_ticket_save is_accepted_completion
       is_accepted_usage_update is_delivery is_store_op is_store_read
       is_smtp_op is_send is_close is_sleep is_verify is_usage_update length
       sendEmail_calls];
  red_world; lia.

Ltac order_events :=
  cbv [only_after is_ticket_save is_accepted_completion is_accepted_usage_update
       is_delivery is_usage_update negb andb];
  red_world; reflexivity.

(** Symbolic execution of a run that the goal names once. *)
Ltac run_named m :=
  let res := fresh "res" in
  let w1 := fresh "w1" in
  let Hrun := fresh "Hrun" in
  destruct m as [res w1] eqn:Hrun; cbn [fst snd];
  revert res w1 Hrun; run;
  intros res w1 Hrun; injection Hrun as <- <-; red_world.

Ltac solve_via :=
  intros tr Htr; cbn in Htr;
  first [ discriminate
        | injection Htr as <-; do 2 eexists;
          split_and!;
          [eassumption|eassumption|reflexivity
          |first [right; reflexivity | left; reflexivity]] ].

Ltac use_findOne :=
  repeat match goal with
  | H : List.find _ _ = Some _ |- _ =>
      apply findOne_Some in H; destruct H as [[? H] ?]
  end.

Lemma count_app p a b : count p (a ++ b) = (count p a + count p b)%nat.
Proof. unfold count. by rewrite List.filter_app, length_app. Qed.

(** ** The job writes of a run *)

(** Every job write of a run is a write of the attempt, and what the
    store holds afterwards under any key is what it held before or a
    write of the run that it accepted. *)
Lemma processEmailJob_writes job env w :
  let w' := snd (processEmailJob job env w) in
  Forall (is_attempt_write job) (events_since w w')
  /\ (forall k j, jobs w' !! k = Some j ->
        jobs w !! k = Some j
        \/ (k = Job._id job /\ In (EvJobSave j None) (events_since w w')))
  /\ dom (jobs w) ⊆ dom (jobs w').
Proof.
  cbn zeta. run_named (processEmailJob job env w); read_events; leb_props.
  all: split_and!.
  all: try (rewrite ?dom_insert_L; set_solver).
  all: try (repeat (apply List.Forall_cons; [solve_write|]); apply List.Forall_nil).
  all: try (intros k j' H;
            repeat (apply lookup_insert_Some in H as [[<- <-]|[? H]];
                    [right; split; [reflexivity|in_events]|]);
            left; exact H).
Qed.

(** ** What a run does outside the job document *)

Lemma processEmailJob_effects job env w :
  let r := processEmailJob job env w in
  let w' := snd r in
  let evs := events_since w w' in
  ((count is_ticket_save evs <= count is_accepted_completion evs)%nat
   /\ (count is_accepted_completion evs <= count is_accepted_usage_update evs)%nat
   /\ (count is_accepted_usage_update evs <= count is_delivery evs)%nat
   /\ (count is_usage_update evs <= count is_delivery evs)%nat
   /\ (count is_delivery evs <= 1)%nat
   /\ only_after is_delivery is_usage_update evs = true
   /\ only_after is_accepted_usage_update is_accepted_completion evs = true
   /\ only_after is_accepted_completion is_ticket_save evs = true)
  /\ ((count is_store_op evs <= 7)%nat
      /\ (count is_store_read evs <= 2)%nat
      /\ (count is_smtp_op evs <= 4)%nat
      /\ (count is_send evs <= 2)%nat
      /\ count is_sleep evs = 0%nat
      /\ count is_close evs = count is_delivery evs
      /\ (tick w <= tick w')%nat)
  /\ Forall (via_eligible_credential w) evs
  /\ (credentials w' = credentials w
      \/ exists k c, credentials w !! k = Some c /\ eligible c = true
                     /\ count is_accepted_usage_update evs = 1%nat
                     /\ credentials w'
                        = alter increment_usage (EmailCredential._id c) (credentials w))
  /\ (tickets w' = tickets w
      \/ exists tid t, JobData.ticketId (Job.data job) = Some tid
                       /\ tickets w !! tid = Some t
                       /\ count is_accepted_completion evs = 1%nat
                       /\ tickets w'
                          = <[Ticket._id t := Ticket.set_status (Some "sent") t]>
                              (tickets w)).
Proof.
  cbn zeta. run_named (processEmailJob job env w); read_events; use_findOne.
  all: split; [split_and!; first [count_events | order_events]|].
  all: split; [split_and!; first [count_events | lia]|].
  all: split; [repeat (apply List.Forall_cons; [solve_via|]); apply List.Forall_nil|].
  all: split.
  all: first [left; reflexivity | right; do 2 eexists; split_and!;
              first [eassumption | reflexivity]].
Qed.

(** ** A run when the store accepts every operation *)

Ltac pick_event := (left; reflexivity) + (right; pick_event).

Lemma processEmailJob_outcome job env w :
  store_accepts env w ->
  let r := processEmailJob job env w in
  let w' := snd r in
  let evs := events_since w w' in
  exists b j,
    fst r = Ok b
    /\ jobs w' !! Job._id job = Some j
    /\ attempt_write job j
    /\ Job.status j = (if b then completed else status_after_failure job)
    /\ (count is_delivery evs = if b then 1 else 0)%nat
    /\ count is_accepted_usage_update evs = count is_delivery evs
    /\ count is_ticket_save evs = count is_delivery evs
    /\ (tick w <= tick w')%nat
    /\ match validation_error w job with
       | Some msg =>
           b = false /\ Job.error j = Some msg /\ count is_smtp_op evs = 0%nat
           /\ (count is_store_op evs <= 4)%nat
       | None =>
           (1 <= sendEmail_calls evs)%nat
           /\ (b = false ->
               exists ev e, In ev evs /\ smtp_failure ev = Some e
                            /\ Job.error j = Some (message e))
       end.
Proof.
  intros Hacc. cbn zeta. cbv [validation_error status_after_failure].
  run_named (processEmailJob job env w); read_events.
  all: eexists _, _; split; [reflexivity|].
  all: rewrite ?lookup_insert_eq.
  all: split; [reflexivity|]; red_world.
  all: split; [leb_props; solve_write|].
  all: split; [first [reflexivity | by rewrite Heqb]|].
  all: split; [count_events|].
  all: split; [count_events|].
  all: split; [count_events|].
  all: split; [lia|].
  all: first [ split_and!; [reflexivity|reflexivity|count_events|count_events]
             | split; [count_events|];
               first [ discriminate
                     | intros _; eexists _, _; cbn [In];
                       solve [split; [pick_event|]; split; reflexivity] ] ].
Qed.
(** ** Consecutive runs *)

Lemma events_since_trans w1 w2 w3 a b :
  trace w2 = trace w1 ++ a -> trace w3 = trace w2 ++ b ->
  events_since w1 w3 = events_since w1 w2 ++ events_since w2 w3.
Proof.
  intros H1 H2.
  rewrite (events_since_app _ _ _ H1), (events_since_app _ _ _ H2).
  apply events_since_app. by rewrite H2, H1, app_assoc.
Qed.

Lemma processEmailJob_trace job env w :
  exists evs, trace (snd (processEmailJob job env w)) = trace w ++ evs.
Proof. destruct (processEmailJob_events job env w) as (rest & H & _). eauto. Qed.

Lemma for_each_job_trace batch env w :
  exists evs, trace (snd (for_each_job batch env w)) = trace w ++ evs.
Proof. destruct (for_each_job_spec batch env w) as (evs & H & _). eauto. Qed.

(** Counting the events of a batch, given a bound for each run. *)
Lemma for_each_job_count (p : Ev -> bool) (c : nat) batch env w :
  (forall job w1,
     (count p (events_since w1 (snd (processEmailJob job env w1))) <= c)%nat) ->
  (count p (events_since w (snd (for_each_job batch env w)))
   <= (c + count p [EvSleep 1000]) * length batch)%nat.
Proof.
  intros Hc. revert w. induction batch as [|job batch IH]; intros w.
  { cbn. unfold events_since. rewrite drop_all. cbn. lia. }
  rewrite for_each_job_cons. specialize (Hc job w).
  destruct (processEmailJob_trace job env w) as (a & Ha).
  destruct (processEmailJob job env w) as [[b|e] w1]; cbn [fst snd] in *.
  - specialize (IH (advance (record (EvSleep 1000) w1))).
    destruct (for_each_job_trace batch env (advance (record (EvSleep 1000) w1)))
      as (c' & Hc').
    erewrite (events_since_trans w (advance (record (EvSleep 1000) w1)));
      [|cbn; rewrite Ha, <- app_assoc; reflexivity|exact Hc'].
    rewrite count_app.
    rewrite (events_since_app w (advance (record (EvSleep 1000) w1)) (a ++ [EvSleep 1000]))
      by (cbn; rewrite Ha, <- app_assoc; reflexivity).
    rewrite count_app. rewrite (events_since_app _ _ _ Ha) in Hc.
    cbn [length]. lia.
  - cbn [length]. lia.
Qed.

Lemma pollJobs_count (p : Ev -> bool) (c : nat) env w :
  (forall lvl msg, p (EvLog lvl msg) = false) ->
  (forall job w1,
     (count p (events_since w1 (snd (processEmailJob job env w1))) <= c)%nat) ->
  (count p (events_since w (snd (pollJobs env w)))
   <= count p [EvJobFind (db_fault env (tick w))]
      + (c + count p [EvSleep 1000]) * length (poll_query (jobs w)))%nat.
Proof.
  intros Hlog Hc. rewrite pollJobs_unfold.
  destruct (db_fault env (tick w)) as [e|] eqn:Hdb.
  { cbn [snd]. erewrite events_since_app
      by (cbn; rewrite <- app_assoc; reflexivity).
    cbn. unfold count. cbn. rewrite Hlog. destruct (p _); cbn; lia. }
  pose proof (for_each_job_count p c (poll_query (jobs w)) env
                (advance (record (EvJobFind None) w)) Hc) as H.
  destruct (for_each_job_trace (poll_query (jobs w)) env
              (advance (record (EvJobFind None) w))) as (a & Ha).
  rewrite (events_since_app _ _ _ Ha) in H. cbn in Ha.
  destruct (for_each_job _ env _) as [[u|e] w1]; cbn [fst snd] in *.
  - rewrite (events_since_app w w1 (EvJobFind None :: a))
      by (rewrite Ha, <- app_assoc; reflexivity).
    change (EvJobFind None :: a) with ([EvJobFind None] ++ a).
    rewrite count_app. lia.
  - rewrite (events_since_app w _ (EvJobFind None :: a ++ [EvLog lvl_error
               [Txt "❌ Polling error: "; Txt (message e)]]))
      by (cbn; rewrite Ha, <- !app_assoc; reflexivity).
    change (EvJobFind None :: ?l) with ([EvJobFind None] ++ l).
    rewrite !count_app. unfold count at 3. cbn [List.filter].
    rewrite Hlog. cbn [length]. lia.
Qed.

(** ** Invariants of a poll cycle *)

Lemma for_each_job_inv (I : World -> Prop) batch env w :
  (forall w1, I w1 -> I (advance (record (EvSleep 1000) w1))) ->
  (forall job w1, job ∈ batch -> I w1 -> I (snd (processEmailJob job env w1))) ->
  I w -> I (snd (for_each_job batch env w)).
Proof.
  intros Hsleep. revert w. induction batch as [|job batch IH]; intros w Hrun Hw.
  { exact Hw. }
  rewrite for_each_job_cons.
  pose proof (Hrun job w ltac:(left) Hw) as H1.
  destruct (processEmailJob job env w) as [[b|e] w1]; cbn [fst snd] in *; [|done].
  apply IH; [|by apply Hsleep].
  intros job' w2 Hin. apply Hrun. by right.
Qed.

Lemma pollJobs_inv (I : World -> Prop) env w :
  (forall w1 ev, I w1 -> I (record ev w1)) ->
  (forall w1, I w1 -> I (advance w1)) ->
  (forall job w1, job ∈ poll_query (jobs w) -> I w1 ->
                  I (snd (processEmailJob job env w1))) ->
  I w -> I (snd (pollJobs env w)).
Proof.
  intros Hrec Hadv Hrun Hw. rewrite pollJobs_unfold.
  destruct (db_fault env (tick w)); [by apply Hrec, Hadv, Hrec|].
  pose proof (for_each_job_inv I (poll_query (jobs w)) env
                (advance (record (EvJobFind None) w))) as H.
  destruct (for_each_job _ env _) as [[u|e] w1]; cbn [fst snd] in *.
  - apply H; auto.
  - apply Hrec, H; auto.
Qed.
(** ** How the collections evolve *)

Lemma pointwise_refl {A} (R : A -> A -> Prop) (m : gmap N A) :
  (forall a, R a a) -> pointwise R m m.
Proof. intros HR k. destruct (m !! k); constructor. apply HR. Qed.

Lemma pointwise_trans {A} (R : A -> A -> Prop) (m1 m2 m3 : gmap N A) :
  (forall a b c, R a b -> R b c -> R a c) ->
  pointwise R m1 m2 -> pointwise R m2 m3 -> pointwise R m1 m3.
Proof.
  intros HR H12 H23 k. specialize (H12 k). specialize (H23 k).
  destruct H12; inversion H23; subst; constructor. eauto.
Qed.

Lemma pointwise_mono {A} (R R' : A -> A -> Prop) (m m' : gmap N A) :
  (forall k a b, m !! k = Some a -> R a b -> R' a b) ->
  pointwise R m m' -> pointwise R' m m'.
Proof.
  intros HR H k. specialize (H k). specialize (HR k).
  destruct H; constructor. eauto.
Qed.

Lemma pointwise_dom {A} (R : A -> A -> Prop) (m m' : gmap N A) :
  pointwise R m m' -> dom m = dom m'.
Proof.
  intros H. apply set_eq. intros k. rewrite !elem_of_dom.
  specialize (H k). destruct H; split; intros []; naive_solver.
Qed.

Lemma pointwise_lookup {A} (R : A -> A -> Prop) (m m' : gmap N A) k a :
  pointwise R m m' -> m !! k = Some a -> exists a', m' !! k = Some a' /\ R a a'.
Proof. intros H Hk. specialize (H k). rewrite Hk in H. inversion H; eauto. Qed.

Lemma ticket_evolved_trans a b c :
  ticket_evolved a b -> ticket_evolved b c -> ticket_evolved a c.
Proof. intros [->| ->] [->| ->]; [by left|by right|by right|by right]. Qed.

Lemma credential_evolved_refl c : credential_evolved c c.
Proof.
  exists (EmailCredential.daily_usage c). split_and!; [by destruct c|lia|done|lia].
Qed.

Lemma credential_evolved_trans a b c :
  credential_evolved a b -> credential_evolved b c -> credential_evolved a c.
Proof.
  intros (u1 & -> & H1 & H2 & H3) (u2 & -> & H4 & H5 & H6).
  cbn in *. exists u2. split_and!; [done|lia| |].
  - intros Ha. rewrite <- (H2 Ha). by apply H5.
  - intros limit Hl. specialize (H3 _ Hl). specialize (H6 _ Hl). lia.
Qed.

Lemma credential_evolved_increment c :
  eligible c = true -> credential_evolved c (increment_usage c).
Proof.
  intros [Ha Hl]%eligible_true. eexists. split; [reflexivity|].
  split_and!; [lia|intros ?; congruence|]. intros limit H. specialize (Hl _ H). lia.
Qed.

Lemma job_evolved_refl j : job_evolved j j.
Proof. split_and!; [done..|lia|lia|done|by left]. Qed.

Lemma job_evolved_trans a b c :
  job_evolved a b -> job_evolved b c -> job_evolved a c.
Proof.
  intros (Hi1 & Hr1 & Hf1 & Hs1) (Hi2 & Hr2 & Hf2 & Hs2).
  split_and!.
  - destruct Hi1 as (?&?&?&?&?&?), Hi2 as (?&?&?&?&?&?).
    split_and!; congruence.
  - lia.
  - lia.
  - intros Hf. specialize (Hf1 Hf). subst b. auto.
  - destruct Hs2 as [->|?]; [done|by right].
Qed.

Lemma job_cycle_evolved j j' : job_cycle j j' -> job_evolved j j'.
Proof.
  intros [->|[Hf (Hid & Hr & Hst)]]; [apply job_evolved_refl|].
  destruct (proj1 (poll_filter_true j) Hf) as (_ & _ & ?).
  split_and!; [done|lia|lia|congruence|].
  right. by destruct (Job.status j').
Qed.

(** One run, collection by collection. *)
Lemma processEmailJob_jobs job env w k :
  let w' := snd (processEmailJob job env w) in
  jobs w' !! k = jobs w !! k
  \/ (k = Job._id job /\ exists j', jobs w' !! k = Some j' /\ attempt_write job j').
Proof.
  cbn zeta. destruct (decide (k = Job._id job)) as [->|Hk].
  - destruct (processEmailJob_writes job env w) as (Hw & Hs & Hdom).
    cbn zeta in *.
    destruct (jobs (snd (processEmailJob job env w)) !! Job._id job) as [j'|] eqn:E.
    + destruct (Hs _ _ E) as [H|[_ Hin]]; [by left|right].
      split; [done|]. exists j'. split; [done|].
      rewrite List.Forall_forall in Hw. apply (Hw _ Hin).
    + left. symmetry. apply not_elem_of_dom. intros H%Hdom.
      by apply not_elem_of_dom in E.
  - left. by destruct (processEmailJob_events job env w) as (? & _ & _ & _ & _ & _ & H & _);
      apply H.
Qed.

Lemma processEmailJob_stores job env w :
  keyed Ticket._id (tickets w) -> keyed EmailCredential._id (credentials w) ->
  let w' := snd (processEmailJob job env w) in
  keyed Ticket._id (tickets w') /\ keyed EmailCredential._id (credentials w')
  /\ pointwise ticket_evolved (tickets w) (tickets w')
  /\ pointwise credential_evolved (credentials w) (credentials w').
Proof.
  intros Hkt Hkc. cbn zeta.
  destruct (processEmailJob_effects job env w) as (_ & _ & _ & Hcred & Htick).
  cbn zeta in *.
  assert (keyed Ticket._id (tickets (snd (processEmailJob job env w)))
          /\ pointwise ticket_evolved (tickets w)
               (tickets (snd (processEmailJob job env w)))) as [? ?].
  { destruct Htick as [->|(tid & t & _ & Ht & _ & ->)].
    { split; [done|]. apply pointwise_refl. by left. }
    pose proof (Hkt _ _ Ht) as Hid. rewrite Hid. split.
    - intros k a [[<- <-]|[_ Hl]]%lookup_insert_Some; [done|by apply Hkt].
    - intros k. destruct (decide (k = tid)) as [->|Hne].
      + rewrite lookup_insert_eq, Ht. constructor. by right.
      + rewrite lookup_insert_ne by done. destruct (tickets w !! k); constructor.
        by left. }
  assert (keyed EmailCredential._id (credentials (snd (processEmailJob job env w)))
          /\ pointwise credential_evolved (credentials w)
               (credentials (snd (processEmailJob job env w)))) as [? ?].
  { destruct Hcred as [->|(k & c & Hc & He & _ & ->)].
    { split; [done|]. apply pointwise_refl, credential_evolved_refl. }
    pose proof (Hkc _ _ Hc) as Hid. rewrite Hid. split.
    - intros k' a [(<- & c' & Hc' & ->)|[_ Hl]]%lookup_alter_Some; [|by apply Hkc].
      cbn. by apply Hkc.
    - intros k'. destruct (decide (k' = k)) as [->|Hne].
      + rewrite lookup_alter_eq, Hc. constructor.
        by apply credential_evolved_increment.
      + rewrite lookup_alter_ne by done. destruct (credentials w !! k'); constructor.
        apply credential_evolved_refl. }
  done.
Qed.

(** One poll cycle. *)
Lemma pollJobs_evolves env w :
  keyed Job._id (jobs w) ->
  keyed Ticket._id (tickets w) ->
  keyed EmailCredential._id (credentials w) ->
  let w' := snd (pollJobs env w) in
  keyed Job._id (jobs w')
  /\ keyed Ticket._id (tickets w')
  /\ keyed EmailCredential._id (credentials w')
  /\ pointwise job_cycle (jobs w) (jobs w')
  /\ pointwise ticket_evolved (tickets w) (tickets w')
  /\ pointwise credential_evolved (credentials w) (credentials w').
Proof.
  intros Hkj Hkt Hkc. cbn zeta. split; [by apply pollJobs_keyed|].
  apply (pollJobs_inv
           (fun w1 => keyed Ticket._id (tickets w1)
                      /\ keyed EmailCredential._id (credentials w1)
                      /\ pointwise job_cycle (jobs w) (jobs w1)
                      /\ pointwise ticket_evolved (tickets w) (tickets w1)
                      /\ pointwise credential_evolved (credentials w) (credentials w1))).
  - done.
  - done.
  - intros job w1 Hin (Hkt1 & Hkc1 & Hj & Ht & Hc).
    destruct (processEmailJob_stores job env w1 Hkt1 Hkc1) as (? & ? & Ht' & Hc').
    split_and!; [done|done| | |].
    + destruct (find_sort_limit_spec poll_filter by_created_at 5 (jobs w))
        as (_ & _ & Hsel & _).
      apply Hsel in Hin as [[k0 Hk0] Hf].
      pose proof (Hkj _ _ Hk0) as <-.
      intros k. destruct (processEmailJob_jobs job env w1 k)
        as [->|(-> & j' & -> & Hw)]; [apply Hj|].
      rewrite Hk0. constructor. by right.
    + eapply pointwise_trans; [apply ticket_evolved_trans|exact Ht|exact Ht'].
    + eapply pointwise_trans; [apply credential_evolved_trans|exact Hc|exact Hc'].
  - split_and!; [done|done| | |].
    + apply pointwise_refl. by left.
    + apply pointwise_refl. by left.
    + apply pointwise_refl, credential_evolved_refl.
Qed.

(** Any number of poll cycles. *)
Lemma cycles_evolve n env w :
  keyed Job._id (jobs w) ->
  keyed Ticket._id (tickets w) ->
  keyed EmailCredential._id (credentials w) ->
  let w' := cycles n env w in
  keyed Job._id (jobs w')
  /\ keyed Ticket._id (tickets w')
  /\ keyed EmailCredential._id (credentials w')
  /\ pointwise job_evolved (jobs w) (jobs w')
  /\ pointwise ticket_evolved (tickets w) (tickets w')
  /\ pointwise credential_evolved (credentials w) (credentials w').
Proof.
  revert w. induction n as [|n IH]; intros w Hkj Hkt Hkc; cbn zeta.
  { cbn. split_and!; try done.
    - apply pointwise_refl, job_evolved_refl.
    - apply pointwise_refl. by left.
    - apply pointwise_refl, credential_evolved_refl. }
  cbn [cycles].
  destruct (pollJobs_evolves env w Hkj Hkt Hkc) as (Hkj1 & Hkt1 & Hkc1 & Hj & Ht & Hc).
  destruct (IH _ Hkj1 Hkt1 Hkc1) as (? & ? & ? & Hj' & Ht' & Hc').
  cbn zeta in *. split_and!; try done.
  - eapply pointwise_trans; [apply job_evolved_trans| |exact Hj'].
    eapply pointwise_mono; [|exact Hj]. intros ? ? ? _. apply job_cycle_evolved.
  - eapply pointwise_trans; [apply ticket_evolved_trans|exact Ht|exact Ht'].
  - eapply pointwise_trans; [apply credential_evolved_trans|exact Hc|exact Hc'].
Qed.
(** A batch over a store that rejects nothing. *)
Lemma for_each_job_accepting batch env w :
  store_accepts env w ->
  NoDup (Job._id <$> batch) ->
  let r := for_each_job batch env w in
  fst r = Ok tt
  /\ count is_sleep (events_since w (snd r)) = length batch
  /\ (tick w <= tick (snd r))%nat
  /\ forall b, b ∈ batch ->
       exists j', jobs (snd r) !! Job._id b = Some j'
                  /\ attempt_write b j'
                  /\ (Job.status j' = completed
                      \/ Job.status j' = status_after_failure b).
Proof.
  revert w. induction batch as [|job batch IH]; intros w Hacc Hnd; cbn zeta.
  { cbn. unfold events_since. rewrite drop_all. split_and!; try done.
    intros b Hb. by apply elem_of_nil in Hb. }
  rewrite fmap_cons in Hnd. apply NoDup_cons in Hnd as [Hnotin Hnd].
  rewrite for_each_job_cons.
  destruct (processEmailJob_outcome job env w Hacc)
    as (b0 & j & Hr & Hj & Hw & Hst & _ & _ & _ & Htick & _).
  destruct (processEmailJob_effects job env w)
    as (_ & (_ & _ & _ & _ & Hsl & _) & _).
  destruct (processEmailJob_trace job env w) as (a & Ha).
  cbn zeta in *.
  destruct (processEmailJob job env w) as [r w1]; cbn [fst snd] in *. subst r.
  set (w2 := advance (record (EvSleep 1000) w1)).
  assert (Hacc2 : store_accepts env w2).
  { intros n Hn. apply Hacc. cbn in Hn. lia. }
  destruct (IH w2 Hacc2 Hnd) as (Hok & Hcount & Htick2 & Hall).
  destruct (for_each_job_spec batch env w2) as (evs & Htr & _ & _ & Hframe & _).
  cbn zeta in *. split_and!.
  - exact Hok.
  - rewrite (events_since_trans w w2 _ (a ++ [EvSleep 1000]) evs);
      [|cbn; rewrite Ha, <- app_assoc; reflexivity|exact Htr].
    rewrite count_app, Hcount.
    rewrite (events_since_app w w2 (a ++ [EvSleep 1000]))
      by (cbn; rewrite Ha, <- app_assoc; reflexivity).
    rewrite (events_since_app _ _ _ Ha) in Hsl.
    rewrite count_app, Hsl. reflexivity.
  - cbn in Htick2. lia.
  - intros b [->|Hb]%elem_of_cons; [|by apply Hall].
    exists j. rewrite Hframe by done. split_and!; [exact Hj|exact Hw|].
    rewrite Hst. destruct b0; auto.
Qed.
(** ** Counting documents *)

Lemma filter_length_Permutation {A} (f : A -> bool) (l l' : list A) :
  l ≡ₚ l' -> length (List.filter f l) = length (List.filter f l').
Proof.
  induction 1 as [|a l l' _ IH|a b l|l1 l2 l3 _ IH1 _ IH2]; cbn.
  - done.
  - destruct (f a); cbn; by rewrite IH.
  - by destruct (f a), (f b).
  - congruence.
Qed.

Lemma count_docs_insert {A} (f : A -> bool) (m : gmap N A) i a :
  m !! i = None ->
  length (List.filter f (docs (<[i:=a]> m)))
  = ((if f a then 1 else 0) + length (List.filter f (docs m)))%nat.
Proof.
  intros Hi. unfold docs.
  rewrite (filter_length_Permutation f _ (a :: (map_to_list m).*2)).
  - cbn. by destruct (f a).
  - by rewrite (map_to_list_insert m i a Hi).
Qed.

(** A count cannot go down when every counted document is still
    counted. *)
Lemma count_docs_le {A} (R : A -> A -> Prop) (f g : A -> bool) (m m' : gmap N A) :
  pointwise R m m' ->
  (forall a b, R a b -> f a = true -> g b = true) ->
  (length (List.filter f (docs m)) <= length (List.filter g (docs m')))%nat.
Proof.
  intros Hp Hfg. revert m' Hp.
  induction m as [|i a m Hi IH] using map_ind; intros m' Hp.
  { unfold docs. rewrite map_to_list_empty. cbn. lia. }
  pose proof (Hp i) as Hpi. rewrite lookup_insert_eq in Hpi.
  inversion Hpi as [a' b HR Ha' Hb|]; subst. symmetry in Hb.
  rewrite <- (insert_delete_id m' i b Hb).
  rewrite !count_docs_insert by (done || apply lookup_delete_eq).
  assert (Hp' : pointwise R m (delete i m')).
  { intros k. destruct (decide (k = i)) as [->|Hne].
    - rewrite Hi, lookup_delete_eq. constructor.
    - rewrite lookup_delete_ne by done. specialize (Hp k).
      by rewrite lookup_insert_ne in Hp. }
  specialize (IH _ Hp'). specialize (Hfg _ _ HR).
  destruct (f a); [rewrite Hfg by done|destruct (g b)]; lia.
Qed.

Lemma pointwise_flip {A} (R : A -> A -> Prop) (m m' : gmap N A) :
  pointwise R m m' -> pointwise (flip R) m' m.
Proof. intros H k. destruct (H k); by constructor. Qed.

Lemma count_docs_eq {A} (R : A -> A -> Prop) (f g : A -> bool) (m m' : gmap N A) :
  pointwise R m m' ->
  (forall a b, R a b -> f a = g b) ->
  length (List.filter f (docs m)) = length (List.filter g (docs m')).
Proof.
  intros Hp Hfg. apply Nat.le_antisymm.
  - eapply count_docs_le; [exact Hp|]. intros a b HR. by rewrite (Hfg a b HR).
  - eapply count_docs_le; [exact (pointwise_flip _ _ _ Hp)|].
    intros a b HR. by rewrite (Hfg b a HR).
Qed.

Lemma filter_length_cons {A} (f : A -> bool) a (l : list A) :
  length (List.filter f (a :: l))
  = (Nat.b2n (f a) + length (List.filter f l))%nat.
Proof. cbn. by destruct (f a). Qed.

(** The jobs that [/stats] counts in one of its four numbers. *)
Lemma stats_total_spec (m : gmap N Job.t) :
  stats_total (stats_of m)
  = length (List.filter
              (fun j => bool_decide (Job.job_type j = send_email)
                        && negb (bool_decide (Job.status j = queued))
                        && negb (bool_decide (Job.status j = errored)))
              (docs m)).
Proof.
  unfold stats_total, stats_of. cbn [Stats.pending Stats.processing Stats.completed
                                     Stats.failed].
  induction (docs m) as [|j l IH]; [done|].
  rewrite !filter_length_cons.
  assert (Nat.b2n (stats_filter pending j) + Nat.b2n (stats_filter processing j)
          + Nat.b2n (stats_filter completed j) + Nat.b2n (stats_filter failed j)
          = Nat.b2n (bool_decide (Job.job_type j = send_email)
                     && negb (bool_decide (Job.status j = queued))
                     && negb (bool_decide (Job.status j = errored))))%nat.
  { unfold stats_filter. by destruct (Job.job_type j), (Job.status j). }
  lia.
Qed.

(** ** [sendEmail]: one transport, verified first, closed on success only *)



(** ** [processEmailJob]: what leaves the process *)

(** X2. Whatever SMTP operation a run of [processEmailJob] performs goes
    through a transport built from a credential that the store held at
    the start of the run and that was active and below its daily limit:
    the server and login are that credential's, the port is its port or
    465, TLS is implicit exactly on port 465, at least TLS 1.2 is
    required and the server certificate must verify. *)
Theorem X2_smtp_through_eligible_credential job env w ev tr :
  In ev (events_since w (snd (processEmailJob job env w))) ->
  transport_of ev = Some tr ->
  exists k c,
    credentials w !! k = Some c
    /\ EmailCredential.is_active c = true
    /\ (forall limit, EmailCredential.daily_limit c = Some limit ->
                      EmailCredential.daily_usage c < limit)
    /\ Transport.host tr = EmailCredential.smtp_server c
    /\ Transport.auth_user tr = EmailCredential.username c
    /\ Transport.auth_pass tr = EmailCredential.password c
    /\ (Transport.port tr = EmailCredential.smtp_port c \/ Transport.port tr = 465)
    /\ Transport.secure tr = (Transport.port tr =? 465)%Z
    /\ Transport.tls_minVersion tr = "TLSv1.2"
    /\ Transport.tls_rejectUnauthorized tr = true.
Proof.
  intros Hin Htr.
  destruct (processEmailJob_effects job env w) as (_ & _ & Hvia & _).
  rewrite List.Forall_forall in Hvia.
  destruct (Hvia ev Hin tr Htr) as (k & c & Hk & [Ha Hl]%eligible_true & Heq & Hp).
  exists k, c. split_and!; try done.
  all: rewrite Heq; reflexivity.
Qed.

(** The fallback run: the second [verify] uses port 465 of the stored
    credential. *)
Lemma X2_smtp_through_eligible_credential_witness :
  exists k c,
    credentials Sample.world1 !! k = Some c
    /\ EmailCredential.is_active c = true
    /\ Transport.host (createTransport Sample.credential587 465 true)
       = EmailCredential.smtp_server c.
Proof.
  destruct (X2_smtp_through_eligible_credential Sample.job1 Sample.env_timeout587
              Sample.world1
              (EvVerify (createTransport Sample.credential587 465 true) None)
              (createTransport Sample.credential587 465 true))
    as (k & c & H1 & H2 & _ & H4 & _).
  - vm_compute. in_events.
  - reflexivity.
  - exists k, c. by split_and!.
Defined.

(** X3. In a run of [processEmailJob] the mail server accepts at most
    one send, and the commit steps keep their order: no usage update is
    attempted before a send has been accepted, the job is not stored as
    [completed] before a usage update has been accepted, and the ticket
    is not saved before the job has been stored as [completed]. So there
    is at most one of each, none without the one before it, and the
    transport is closed exactly once per accepted send. *)
Theorem X3_commit_steps_in_order job env w :
  let evs := events_since w (snd (processEmailJob job env w)) in
  (count is_delivery evs <= 1)%nat
  /\ only_after is_delivery is_usage_update evs = true
  /\ only_after is_accepted_usage_update is_accepted_completion evs = true
  /\ only_after is_accepted_completion is_ticket_save evs = true
  /\ (count is_usage_update evs <= count is_delivery evs)%nat
  /\ (count is_accepted_completion evs <= count is_accepted_usage_update evs)%nat
  /\ (count is_accepted_usage_update evs <= count is_usage_update evs)%nat
  /\ (count is_ticket_save evs <= count is_accepted_completion evs)%nat
  /\ count is_close evs = count is_delivery evs.
Proof.
  destruct (processEmailJob_effects job env w)
    as ((? & ? & ? & ? & ? & ? & ? & ?) & (_ & _ & _ & _ & _ & ? & _) & _).
  cbn zeta. split_and!; try done.
  generalize (events_since w (snd (processEmailJob job env w))).
  intros evs. unfold count. induction evs as [|[] evs IH]; cbn; try lia.
  destruct rejected; cbn; lia.
Qed.

(** X4. Outside the job document a run of [processEmailJob] changes at
    most two things: the [daily_usage] of one eligible credential, by
    exactly 1, and the status of the ticket the job refers to, to [sent].
    A run in which the mail server accepts no send changes neither: every
    credential and every ticket is as before. *)
Theorem X4_side_effects_need_delivery job env w :
  let w' := snd (processEmailJob job env w) in
  let evs := events_since w w' in
  (credentials w' = credentials w
   \/ exists k c, credentials w !! k = Some c /\ eligible c = true
                  /\ credentials w'
                     = alter increment_usage (EmailCredential._id c) (credentials w))
  /\ (tickets w' = tickets w
      \/ exists tid t, JobData.ticketId (Job.data job) = Some tid
                       /\ tickets w !! tid = Some t
                       /\ tickets w'
                          = <[Ticket._id t := Ticket.set_status (Some "sent") t]>
                              (tickets w))
  /\ (count is_delivery evs = 0%nat ->
      credentials w' = credentials w /\ tickets w' = tickets w).
Proof.
  destruct (processEmailJob_effects job env w)
    as ((Ht & Hc & Hu & _) & _ & _ & Hcred & Htick).
  cbn zeta. split_and!.
  - destruct Hcred as [|(k & c & ? & ? & _ & ?)]; [by left|right; eauto].
  - destruct Htick as [|(tid & t & ? & ? & _ & ?)]; [by left|right; eauto].
  - intros Hd. split.
    + destruct Hcred as [|(k & c & _ & _ & H1 & _)]; [done|lia].
    + destruct Htick as [|(tid & t & _ & _ & H1 & _)]; [done|lia].
Qed.

(** The server refuses the login: usage and ticket as before. *)
Lemma X4_side_effects_need_delivery_witness :
  let w' := snd (processEmailJob Sample.job1 Sample.env_refused Sample.world1) in
  credentials w' = credentials Sample.world1 /\ tickets w' = tickets Sample.world1.
Proof.
  apply (X4_side_effects_need_delivery Sample.job1 Sample.env_refused Sample.world1).
  vm_compute. reflexivity.
Defined.

(** ** What a run and a poll cycle can cost *)

(** X5. One run of [processEmailJob] performs at most 7 store operations
    (at most 2 of them reads), at most 4 SMTP operations, at most 2 of
    them sends, and never pauses. One poll cycle selects at most 5 jobs
    and, with [n] jobs selected, performs at most [1 + 7n] store
    operations, at most [4n] SMTP operations, accepts at most [n]
    deliveries and pauses at most [n] times: at most 36 store
    operations, 20 SMTP operations, 5 deliveries and 5 pauses, whatever
    the store and the mail server answer. *)
Theorem X5_resource_bounds env w :
  (forall job,
     let evs := events_since w (snd (processEmailJob job env w)) in
     (count is_store_op evs <= 7)%nat
     /\ (count is_store_read evs <= 2)%nat
     /\ (count is_smtp_op evs <= 4)%nat
     /\ (count is_send evs <= 2)%nat
     /\ count is_sleep evs = 0%nat)
  /\ (let evs := events_since w (snd (pollJobs env w)) in
      let n := length (poll_query (jobs w)) in
      (n <= 5)%nat
      /\ (count is_store_op evs <= 1 + 7 * n)%nat
      /\ (count is_smtp_op evs <= 4 * n)%nat
      /\ (count is_delivery evs <= n)%nat
      /\ (count is_sleep evs <= n)%nat).
Proof.
  split.
  { intros job.
    destruct (processEmailJob_effects job env w)
      as (_ & (? & ? & ? & ? & ? & _) & _).
    cbn zeta. by split_and!. }
  cbn zeta.
  assert (Hrun : forall job w1,
            let evs := events_since w1 (snd (processEmailJob job env w1)) in
            (count is_store_op evs <= 7)%nat /\ (count is_smtp_op evs <= 4)%nat
            /\ (count is_delivery evs <= 1)%nat /\ (count is_sleep evs <= 0)%nat).
  { intros job w1.
    destruct (processEmailJob_effects job env w1)
      as ((_ & _ & _ & _ & ? & _) & (? & _ & ? & _ & ? & _) & _).
    cbn zeta. split_and!; [done|done|done|lia]. }
  cbn zeta in Hrun.
  split_and!.
  - apply (find_sort_limit_spec poll_filter by_created_at 5 (jobs w)).
  - etrans; [apply (pollJobs_count is_store_op 7); [done|apply Hrun]|].
    unfold count. cbn. lia.
  - etrans; [apply (pollJobs_count is_smtp_op 4); [done|apply Hrun]|].
    unfold count. cbn. lia.
  - etrans; [apply (pollJobs_count is_delivery 1); [done|apply Hrun]|].
    unfold count. cbn. lia.
  - etrans; [apply (pollJobs_count is_sleep 0); [done|apply Hrun]|].
    unfold count. cbn. lia.
Qed.

(** ** [processEmailJob]: what it writes into the job *)

(** X6. Every job document that a run of [processEmailJob] hands to
    [save] carries the [_id], [job_type], [data], [maxRetries],
    [nextRetryAt] and [created_at] of the job the run was handed (no
    retry time is ever scheduled) and a [retries] one higher; its status
    is [processing], [completed], [pending] or [failed]. A [failed]
    write has [retries >= maxRetries] and an error message, a [pending]
    write has [retries < maxRetries] and an error message, a [completed]
    write has [result.success = true] and keeps the error message the
    job had before (it is not cleared). When the run is handed the job
    as the store holds it, the store afterwards holds, for every key,
    the document it held before or one of these writes that it
    accepted. *)
Theorem X6_job_writes job env w :
  let w' := snd (processEmailJob job env w) in
  (forall j r,
     In (EvJobSave j r) (events_since w w') ->
     same_identity j job
     /\ Job.retries j = Job.retries job + 1
     /\ Job.status j <> queued /\ Job.status j <> errored
     /\ (Job.status j = failed ->
         Job.maxRetries j <= Job.retries j /\ is_Some (Job.error j))
     /\ (Job.status j = pending ->
         Job.retries j < Job.maxRetries j /\ is_Some (Job.error j))
     /\ (Job.status j = completed ->
         Job.error j = Job.error job
         /\ exists id, Job.result j
                       = Some {| Result.success := true; Result.messageId := id |}))
  /\ (jobs w !! Job._id job = Some job ->
      forall k j,
        jobs w' !! k = Some j ->
        jobs w !! k = Some j
        \/ (k = Job._id job /\ In (EvJobSave j None) (events_since w w'))).
Proof.
  destruct (processEmailJob_writes job env w) as (Hw & Hs & _).
  cbn zeta. split; [|intros _; exact Hs].
  intros j r Hin. rewrite List.Forall_forall in Hw.
  destruct (Hw _ Hin) as (Hid & Hr & Hst).
  split_and!; try done; destruct (Job.status j); try done; try tauto.
Qed.

(** A job that failed once and is delivered in the next cycle: it is
    stored [completed] and still carries the error of the first
    attempt. *)
Lemma X6_job_writes_witness :
  let before := Sample.mk_job 1 Sample.data0 pending 1 3 100 in
  let failed_once := Job.set_error (Some "Invalid login") before in
  let w := Sample.mk_world [failed_once] [Sample.credential587] in
  let w' := snd (processEmailJob failed_once Sample.env_ok w) in
  Job.status <$> jobs w' !! 1%N = Some completed
  /\ Job.error <$> jobs w' !! 1%N = Some (Some "Invalid login").
Proof.
  cbn zeta.
  set (j := Job.set_error (Some "Invalid login")
              (Sample.mk_job 1 Sample.data0 pending 1 3 100)).
  set (w := Sample.mk_world [j] [Sample.credential587]).
  destruct (X6_job_writes j Sample.env_ok w) as [Hw Hs].
  specialize (Hs eq_refl).
  destruct (jobs (snd (processEmailJob j Sample.env_ok w)) !! 1%N) as [saved|] eqn:E;
    [|vm_compute in E; discriminate].
  destruct (Hs _ _ E) as [H0|[_ Hin]].
  - vm_compute in H0. vm_compute in E. congruence.
  - destruct (Hw _ _ Hin) as (_ & _ & _ & _ & _ & _ & Hc).
    assert (Hst : Job.status saved = completed)
      by (vm_compute in E; by injection E as <-).
    destruct (Hc Hst) as [He _]. cbn. by rewrite Hst, He.
Defined.

(** ** [processEmailJob] over a store that rejects nothing *)

(** X7. If the store rejects no operation from the start of the run on,
    [processEmailJob] does not throw, and what it returns tells what
    happened: it returns [true] exactly when the mail server accepted the
    message, once, and then the job is stored [completed], the usage
    update was accepted and the ticket was written; it returns [false]
    exactly when nothing was delivered, and then the job is stored
    [pending] or [failed] with an error message, and no credential and no
    ticket has changed. In both cases the stored job has one more retry
    and is not left [processing]. *)
Theorem X7_outcome_accepting_store job env w :
  store_accepts env w ->
  let r := processEmailJob job env w in
  let w' := snd r in
  let evs := events_since w w' in
  exists b j,
    fst r = Ok b
    /\ jobs w' !! Job._id job = Some j
    /\ Job.retries j = Job.retries job + 1
    /\ Job.status j = (if b then completed else status_after_failure job)
    /\ (count is_delivery evs = if b then 1 else 0)%nat
    /\ count is_accepted_usage_update evs = count is_delivery evs
    /\ count is_ticket_save evs = count is_delivery evs
    /\ (b = false ->
        is_Some (Job.error j)
        /\ credentials w' = credentials w /\ tickets w' = tickets w).
Proof.
  intros Hacc. cbn zeta.
  destruct (processEmailJob_outcome job env w Hacc)
    as (b & j & Hr & Hj & Hw & Hst & Hd & Hu & Ht & _ & _).
  destruct (processEmailJob_effects job env w)
    as ((_ & Hc1 & Hc2 & _) & _ & _ & Hcred & Htick).
  cbn zeta in *. exists b, j. split_and!; try done.
  - apply Hw.
  - intros ->. split_and!.
    + destruct Hw as (_ & _ & Hw). rewrite Hst in Hw.
      unfold status_after_failure in Hw.
      destruct (_ <=? _)%Z; apply Hw.
    + destruct Hcred as [|(? & ? & _ & _ & H1 & _)]; [done|lia].
    + destruct Htick as [|(? & ? & _ & _ & H1 & _)]; [done|lia].
Qed.

(** The mail server refuses the login; the store accepts everything. *)
Lemma X7_outcome_accepting_store_witness :
  exists j,
    processEmailJob Sample.job1 Sample.env_refused Sample.world1
    = (Ok false, snd (processEmailJob Sample.job1 Sample.env_refused Sample.world1))
    /\ jobs (snd (processEmailJob Sample.job1 Sample.env_refused Sample.world1)) !! 1%N
       = Some j
    /\ Job.status j = pending.
Proof.
  assert (Hacc : store_accepts Sample.env_refused Sample.world1) by (intros n _; reflexivity).
  destruct (X7_outcome_accepting_store Sample.job1 Sample.env_refused Sample.world1 Hacc)
    as (b & j & Hr & Hj & _ & Hst & Hd & _).
  exists j. cbn zeta in *.
  destruct b; [vm_compute in Hd; discriminate|].
  split_and!; [|exact Hj|exact Hst].
  destruct (processEmailJob _ _ _) as [r w']. cbn in Hr. by rewrite Hr.
Defined.

(** X8. Over a store that rejects nothing (no store error, and no
    ticket id that the store cannot cast), an attempt is stopped before
    any mail server is contacted exactly in five cases, met in this
    order: the job data name no ticket
    ([Ticket ID not found in job data]), the ticket is not in the store
    ([Ticket not found]), the ticket refers to an event (the lookup
    rejects with a [MissingSchemaError], no [Event] model being
    registered), no credential is eligible
    ([No available email credentials]), or the attachment text or file
    name is missing or empty ([Attachment data missing in job]). The run
    then returns [false], stores that message as the job's error,
    performs no SMTP operation and at most four store operations; the
    refused attempt counts as a retry like any other. A job that gets
    through leads to at least one call of [sendEmail], and if the run
    still returns [false] the stored error is the message of an SMTP
    failure of the run. *)
Theorem X8_validation job env w :
  store_accepts env w ->
  let r := processEmailJob job env w in
  let w' := snd r in
  let evs := events_since w w' in
  match validation_error w job with
  | Some msg =>
      fst r = Ok false
      /\ (exists j, jobs w' !! Job._id job = Some j
                    /\ Job.error j = Some msg
                    /\ Job.retries j = Job.retries job + 1
                    /\ Job.status j = status_after_failure job)
      /\ count is_smtp_op evs = 0%nat
      /\ (count is_store_op evs <= 4)%nat
  | None =>
      (1 <= sendEmail_calls evs)%nat
      /\ (fst r = Ok false ->
          exists j ev e,
            jobs w' !! Job._id job = Some j
            /\ In ev evs /\ smtp_failure ev = Some e
            /\ Job.error j = Some (message e))
  end.
Proof.
  intros Hacc. cbn zeta.
  destruct (processEmailJob_outcome job env w Hacc)
    as (b & j & Hr & Hj & Hw & Hst & _ & _ & _ & _ & Hv).
  destruct (validation_error w job) as [msg|].
  - destruct Hv as (-> & He & Hs & Hn). split_and!; try done.
    exists j. split_and!; try done. apply Hw.
  - destruct Hv as [Hc Hf]. split; [done|].
    intros Hr'. rewrite Hr in Hr'. injection Hr' as ->.
    destruct (Hf eq_refl) as (ev & e & ? & ? & ?). by exists j, ev, e.
Qed.

(** A ticket that refers to an event: the job is refused at the ticket
    lookup. *)
Lemma X8_validation_witness :
  let r := processEmailJob Sample.job1 Sample.env_ok Cases.world_event_ticket in
  fst r = Ok false
  /\ Job.error <$> jobs (snd r) !! Job._id Sample.job1
     = Some (Some (message (MissingSchemaError "Event")))
  /\ count is_smtp_op (events_since Cases.world_event_ticket (snd r)) = 0%nat.
Proof.
  assert (Hacc : store_accepts Sample.env_ok Cases.world_event_ticket)
    by (intros n _; reflexivity).
  pose proof (X8_validation Sample.job1 Sample.env_ok
                Cases.world_event_ticket Hacc) as H.
  cbn zeta in *.
  change (validation_error Cases.world_event_ticket Sample.job1)
    with (Some (message (MissingSchemaError "Event"))) in H.
  destruct H as (Hr & (j & Hj & He & _) & Hs & _).
  split_and!; [exact Hr| |exact Hs]. by rewrite Hj, <- He.
Defined.
(** ** Poll cycles: what becomes of the collections *)

(** X9. Over a store that rejects nothing and holds each job under its
    [_id], a poll cycle works through its whole batch: every selected
    job is claimed, in the order of the batch, each run is followed by
    one pause, and afterwards every selected job is stored with one more
    retry and as [completed], or as [pending] or [failed] by the retry
    rule; none is left [processing]. A cycle that selects nothing
    consists of the query alone and changes no collection. *)
Theorem X9_cycle_accepting_store env w :
  store_accepts env w ->
  keyed Job._id (jobs w) ->
  let batch := poll_query (jobs w) in
  let w' := snd (pollJobs env w) in
  let evs := events_since w w' in
  claim_ids evs = Job._id <$> batch
  /\ count is_sleep evs = length batch
  /\ (forall b, b ∈ batch ->
        exists j', jobs w' !! Job._id b = Some j'
                   /\ Job.retries j' = Job.retries b + 1
                   /\ (Job.status j' = completed
                       \/ Job.status j' = status_after_failure b))
  /\ (batch = [] ->
      evs = [EvJobFind None]
      /\ jobs w' = jobs w /\ tickets w' = tickets w
      /\ credentials w' = credentials w).
Proof.
  intros Hacc Hk. cbn zeta. rewrite pollJobs_unfold.
  rewrite (Hacc (tick w)) by lia.
  set (w0 := advance (record (EvJobFind None) w)).
  assert (Hacc0 : store_accepts env w0).
  { intros n Hn. apply Hacc. cbn in Hn. lia. }
  assert (Hnd : NoDup (Job._id <$> poll_query (jobs w)))
    by (by apply find_sort_limit_NoDup).
  destruct (for_each_job_accepting _ env w0 Hacc0 Hnd) as (Hok & Hsl & _ & Hall).
  destruct (for_each_job_spec (poll_query (jobs w)) env w0)
    as (evs & Htr & _ & Hids & _).
  cbn zeta in *. rewrite (events_since_app _ _ _ Htr) in Hsl.
  destruct (for_each_job (poll_query (jobs w)) env w0) as [r w1] eqn:Hrun.
  cbn [fst snd] in *. subst r. cbn [fst snd].
  rewrite (events_since_app w w1 (EvJobFind None :: evs))
    by (rewrite Htr; cbn; rewrite <- app_assoc; reflexivity).
  split_and!.
  - by apply Hids.
  - exact Hsl.
  - intros b Hb. destruct (Hall b Hb) as (j' & ? & Hw & ?).
    exists j'. split_and!; [done|apply Hw|done].
  - intros Hnil. rewrite Hnil in Hrun. cbn in Hrun. injection Hrun as <-.
    assert (evs = []) as ->.
    { apply (app_inv_head (trace w0)). by rewrite <- Htr, app_nil_r. }
    done.
Qed.

(** Two pending jobs, the first of which names no ticket. *)
Lemma X9_cycle_accepting_store_witness :
  claim_ids (events_since Sample.world_no_ticket
               (snd (pollJobs Sample.env_ok Sample.world_no_ticket)))
  = [1%N; 2%N].
Proof.
  assert (Hacc : store_accepts Sample.env_ok Sample.world_no_ticket)
    by (intros n _; reflexivity).
  assert (Hk : keyed Job._id (jobs Sample.world_no_ticket))
    by apply keyed_list_to_map.
  destruct (X9_cycle_accepting_store Sample.env_ok Sample.world_no_ticket Hacc Hk)
    as (H & _).
  exact H.
Defined.

(** X10. The worker creates and deletes no document: after any number of
    poll cycles the job, ticket and credential collections hold
    documents under exactly the keys they held them under before, and
    each document still sits under its own [_id]. *)
Theorem X10_collections_keep_their_documents n env w :
  keyed Job._id (jobs w) ->
  keyed Ticket._id (tickets w) ->
  keyed EmailCredential._id (credentials w) ->
  let w' := cycles n env w in
  dom (jobs w') = dom (jobs w)
  /\ dom (tickets w') = dom (tickets w)
  /\ dom (credentials w') = dom (credentials w)
  /\ keyed Job._id (jobs w')
  /\ keyed Ticket._id (tickets w')
  /\ keyed EmailCredential._id (credentials w').
Proof.
  intros Hkj Hkt Hkc.
  destruct (cycles_evolve n env w Hkj Hkt Hkc) as (? & ? & ? & Hj & Ht & Hc).
  cbn zeta in *. split_and!; try done; symmetry; by eapply pointwise_dom.
Qed.

Lemma X10_collections_keep_their_documents_witness :
  dom (jobs (cycles 2 Sample.env_ok Cases.world_two_jobs))
  = dom (jobs Cases.world_two_jobs).
Proof.
  apply (X10_collections_keep_their_documents 2 Sample.env_ok Cases.world_two_jobs).
  - apply keyed_list_to_map.
  - apply (keyed_singleton Ticket._id Sample.ticket_plain).
  - apply keyed_list_to_map.
Defined.

(** X11. Over any number of poll cycles a ticket either stays as it is
    or differs only in its status, which is then [sent]; a credential
    differs at most in its [daily_usage], which never decreases, stays
    as it is for a credential that is not active, and is never taken
    beyond the credential's [daily_limit] (a usage already beyond it
    stays where it is). *)
Theorem X11_tickets_and_credentials n env w :
  keyed Job._id (jobs w) ->
  keyed Ticket._id (tickets w) ->
  keyed EmailCredential._id (credentials w) ->
  let w' := cycles n env w in
  (forall k t,
     tickets w !! k = Some t ->
     tickets w' !! k = Some t
     \/ tickets w' !! k = Some (Ticket.set_status (Some "sent") t))
  /\ (forall k c,
        credentials w !! k = Some c ->
        exists usage,
          credentials w' !! k = Some (EmailCredential.set_daily_usage usage c)
          /\ EmailCredential.daily_usage c <= usage
          /\ (EmailCredential.is_active c = false ->
              usage = EmailCredential.daily_usage c)
          /\ (forall limit, EmailCredential.daily_limit c = Some limit ->
                usage <= Z.max (EmailCredential.daily_usage c) limit)).
Proof.
  intros Hkj Hkt Hkc.
  destruct (cycles_evolve n env w Hkj Hkt Hkc) as (_ & _ & _ & _ & Ht & Hc).
  cbn zeta in *. split.
  - intros k t Hk.
    destruct (pointwise_lookup _ _ _ _ _ Ht Hk) as (t' & -> & [->| ->]); auto.
  - intros k c Hk.
    destruct (pointwise_lookup _ _ _ _ _ Hc Hk) as (c' & -> & u & -> & ?).
    by exists u.
Qed.

(** Two jobs and a credential one send away from its limit of 3: after
    the cycle the usage is 3, not 4. *)
Lemma X11_tickets_and_credentials_witness :
  EmailCredential.daily_usage
    <$> credentials (cycles 1 Sample.env_ok Cases.world_two_jobs) !! 3%N
  = Some 3.
Proof.
  destruct (X11_tickets_and_credentials 1 Sample.env_ok Cases.world_two_jobs)
    as [_ Hc].
  - apply keyed_list_to_map.
  - apply (keyed_singleton Ticket._id Sample.ticket_plain).
  - apply keyed_list_to_map.
  - destruct (Hc 3%N Cases.credential_nearly_spent eq_refl)
      as (u & Hu & _ & _ & Hl).
    cbn zeta in Hu. specialize (Hl 3 eq_refl).
    assert (Hlow : EmailCredential.daily_usage
                     <$> credentials (cycles 1 Sample.env_ok Cases.world_two_jobs) !! 3%N
                   = Some u) by (by rewrite Hu).
    rewrite Hlow. vm_compute in Hlow. congruence.
Defined.

(** X12. Over any number of poll cycles a stored job keeps its [_id],
    [job_type], [data], [maxRetries], [nextRetryAt] and [created_at];
    its [retries] never decrease and are never taken beyond 3 (a
    counter already beyond 3 stays where it is); a job that the poll
    query does not select, because it is not a [send_email] job, is not
    [pending] or has 3 or more retries, is never changed at all: in
    particular a job left [processing] is never picked up again, and a
    [pending] job with 3 retries is never attempted, whatever its
    [maxRetries]. A job that did change is not [queued] and not in
    status [error]. *)
Theorem X12_job_evolution n env w k j :
  keyed Job._id (jobs w) ->
  keyed Ticket._id (tickets w) ->
  keyed EmailCredential._id (credentials w) ->
  jobs w !! k = Some j ->
  exists j',
    jobs (cycles n env w) !! k = Some j'
    /\ same_identity j' j
    /\ Job.retries j <= Job.retries j' <= Z.max (Job.retries j) 3
    /\ (Job.job_type j <> send_email \/ Job.status j <> pending \/ 3 <= Job.retries j ->
        j' = j)
    /\ (j' = j \/ (Job.status j' <> queued /\ Job.status j' <> errored)).
Proof.
  intros Hkj Hkt Hkc Hk.
  destruct (cycles_evolve n env w Hkj Hkt Hkc) as (_ & _ & _ & Hj & _).
  destruct (pointwise_lookup _ _ _ _ _ Hj Hk) as (j' & ? & ? & ? & Hf & ?).
  exists j'. do 3 (split; [done|]). split; [|done].
  intros Hn. apply Hf, not_true_is_false. rewrite poll_filter_true.
  intros (? & ? & ?). destruct Hn as [|[|]]; [done|done|lia].
Qed.

(** A job left [processing] next to a pending one, three cycles. *)
Lemma X12_job_evolution_witness :
  exists j',
    jobs (cycles 3 Sample.env_ok Cases.world_orphan) !! 5%N = Some j'
    /\ j' = Cases.job_orphan.
Proof.
  destruct (X12_job_evolution 3 Sample.env_ok Cases.world_orphan 5 Cases.job_orphan)
    as (j' & Hj & _ & _ & Hsame & _).
  - apply keyed_list_to_map.
  - apply (keyed_singleton Ticket._id Sample.ticket_plain).
  - apply keyed_list_to_map.
  - reflexivity.
  - exists j'. split; [exact Hj|]. apply Hsame. right. left. discriminate.
Defined.
(** ** The HTTP endpoints *)

(** X13. [/stats] never throws and changes nothing: no collection, no
    event of the trace. If the store accepts its four count queries it
    answers 200 with the numbers of [send_email] jobs that are
    [pending], [processing], [completed] and [failed]; if the store
    rejects one, it answers 500 with the message of the first rejection
    and asks no further. The four numbers add up to the number of
    [send_email] jobs that are neither [queued] nor in status [error]:
    jobs of other types and jobs in those two statuses are in none of
    them, and the sum is at most the size of the collection. (The
    numbers are those of one instant: no poll cycle runs between the
    four queries.) *)
Theorem X13_stats_endpoint env w :
  let r := get_stats env w in
  (jobs (snd r) = jobs w /\ tickets (snd r) = tickets w
   /\ credentials (snd r) = credentials w /\ trace (snd r) = trace w)
  /\ ((forall n, (n < 4)%nat -> db_fault env (tick w + n) = None) ->
      fst r = Ok (res_json (StatsCounts (stats_of (jobs w)))))
  /\ (forall n e,
        (n < 4)%nat ->
        db_fault env (tick w + n) = Some e ->
        (forall m, (m < n)%nat -> db_fault env (tick w + m) = None) ->
        fst r = Ok (res_status_json 500 (StatsError (message e)))
        /\ tick (snd r) = S (tick w + n))
  /\ stats_total (stats_of (jobs w))
     = length (List.filter
                 (fun j => bool_decide (Job.job_type j = send_email)
                           && negb (bool_decide (Job.status j = queued))
                           && negb (bool_decide (Job.status j = errored)))
                 (docs (jobs w)))
  /\ (stats_total (stats_of (jobs w)) <= size (jobs w))%nat.
Proof.
  cbn zeta. split; [|split_and!].
  - cbv [get_stats try_catch bind ret Job_countDocuments]. red_world.
    destruct (db_fault env (tick w)); red_world; [done|].
    destruct (db_fault env (S (tick w))); red_world; [done|].
    destruct (db_fault env (S (S (tick w)))); red_world; [done|].
    destruct (db_fault env (S (S (S (tick w))))); red_world; done.
  - intros Hacc.
    pose proof (Hacc 0%nat ltac:(lia)) as H0. pose proof (Hacc 1%nat ltac:(lia)) as H1.
    pose proof (Hacc 2%nat ltac:(lia)) as H2. pose proof (Hacc 3%nat ltac:(lia)) as H3.
    rewrite Nat.add_0_r in H0.
    replace (tick w + 1)%nat with (S (tick w)) in H1 by lia.
    replace (tick w + 2)%nat with (S (S (tick w))) in H2 by lia.
    replace (tick w + 3)%nat with (S (S (S (tick w)))) in H3 by lia.
    cbv [get_stats try_catch bind ret Job_countDocuments]. red_world.
    rewrite H0. red_world. rewrite H1. red_world. rewrite H2. red_world.
    rewrite H3. reflexivity.
  - intros n e Hn He Hbefore.
    cbv [get_stats try_catch bind ret Job_countDocuments]. red_world.
    destruct n as [|[|[|[|n]]]]; [| | | |lia].
    + rewrite Nat.add_0_r in He. rewrite He. red_world. split; [done|lia].
    + pose proof (Hbefore 0%nat ltac:(lia)) as H0. rewrite Nat.add_0_r in H0.
      replace (tick w + 1)%nat with (S (tick w)) in He by lia.
      rewrite H0. red_world. rewrite He. red_world. split; [done|lia].
    + pose proof (Hbefore 0%nat ltac:(lia)) as H0. rewrite Nat.add_0_r in H0.
      pose proof (Hbefore 1%nat ltac:(lia)) as H1.
      replace (tick w + 1)%nat with (S (tick w)) in H1 by lia.
      replace (tick w + 2)%nat with (S (S (tick w))) in He by lia.
      rewrite H0. red_world. rewrite H1. red_world. rewrite He. red_world.
      split; [done|lia].
    + pose proof (Hbefore 0%nat ltac:(lia)) as H0. rewrite Nat.add_0_r in H0.
      pose proof (Hbefore 1%nat ltac:(lia)) as H1.
      pose proof (Hbefore 2%nat ltac:(lia)) as H2.
      replace (tick w + 1)%nat with (S (tick w)) in H1 by lia.
      replace (tick w + 2)%nat with (S (S (tick w))) in H2 by lia.
      replace (tick w + 3)%nat with (S (S (S (tick w)))) in He by lia.
      rewrite H0. red_world. rewrite H1. red_world. rewrite H2. red_world.
      rewrite He. red_world. split; [done|lia].
  - apply stats_total_spec.
  - rewrite stats_total_spec, <- length_map_to_list.
    unfold docs. rewrite <- (length_fmap snd (map_to_list (jobs w))).
    apply List.filter_length_le.
Qed.

(** The store is down from the second count query on. *)
Lemma X13_stats_endpoint_witness :
  fst (get_stats (Sample.env_store_down_from 1) Sample.world1)
  = Ok (res_status_json 500 (StatsError "store unreachable")).
Proof.
  destruct (X13_stats_endpoint (Sample.env_store_down_from 1) Sample.world1)
    as (_ & _ & H & _).
  apply (H 1%nat Sample.store_down).
  - lia.
  - reflexivity.
  - intros m Hm. assert (m = 0%nat) as -> by lia. reflexivity.
Defined.

(** X14. Over any number of poll cycles the four numbers of [/stats]
    keep their sum, the number of [completed] jobs and the number of
    [failed] jobs never go down, and the number of [pending] jobs never
    goes up. *)
Theorem X14_stats_over_cycles n env w :
  keyed Job._id (jobs w) ->
  keyed Ticket._id (tickets w) ->
  keyed EmailCredential._id (credentials w) ->
  let before := stats_of (jobs w) in
  let after := stats_of (jobs (cycles n env w)) in
  stats_total after = stats_total before
  /\ (Stats.completed before <= Stats.completed after)%nat
  /\ (Stats.failed before <= Stats.failed after)%nat
  /\ (Stats.pending after <= Stats.pending before)%nat.
Proof.
  intros Hkj Hkt Hkc.
  destruct (cycles_evolve n env w Hkj Hkt Hkc) as (_ & _ & _ & Hj & _).
  cbn zeta in *.
  assert (Hsame : forall a b, job_evolved a b -> poll_filter a = false -> b = a).
  { intros a b (_ & _ & H & _). exact H. }
  split_and!.
  - rewrite !stats_total_spec. symmetry.
    eapply count_docs_eq; [exact Hj|].
    intros a b ((_ & Hty & _) & _ & Hf & Hs). rewrite Hty.
    destruct (poll_filter a) eqn:Hp; [|by rewrite (Hf eq_refl)].
    apply poll_filter_true in Hp as (_ & Hst & _).
    destruct Hs as [->|[? ?]]; [done|]. rewrite Hst.
    destruct (Job.job_type a), (Job.status b); done.
  - cbn. eapply count_docs_le; [exact Hj|].
    intros a b Hab Ha. rewrite (Hsame a b Hab); [done|].
    unfold stats_filter, poll_filter in *.
    destruct (Job.job_type a), (Job.status a); done.
  - cbn. eapply count_docs_le; [exact Hj|].
    intros a b Hab Ha. rewrite (Hsame a b Hab); [done|].
    unfold stats_filter, poll_filter in *.
    destruct (Job.job_type a), (Job.status a); done.
  - cbn. eapply count_docs_le; [exact (pointwise_flip _ _ _ Hj)|].
    intros b a Hab Hb. unfold flip in Hab.
    destruct (poll_filter a) eqn:Hp; [|by rewrite <- (Hsame a b Hab Hp)].
    apply poll_filter_true in Hp as (Hty & Hst & _).
    unfold stats_filter. by rewrite Hty, Hst.
Qed.

(** A cycle that delivers one of two pending jobs and refuses the other
    for want of an eligible credential: two jobs counted before, two
    after. *)
Lemma X14_stats_over_cycles_witness :
  stats_total (stats_of (jobs (cycles 1 Sample.env_ok Cases.world_two_jobs)))
  = stats_total (stats_of (jobs Cases.world_two_jobs)).
Proof.
  apply (X14_stats_over_cycles 1 Sample.env_ok Cases.world_two_jobs).
  - apply keyed_list_to_map.
  - apply (keyed_singleton Ticket._id Sample.ticket_plain).
  - apply keyed_list_to_map.
Defined.

(** X15. [/trigger] runs one poll cycle and then always answers 200 with
    [success: true]: since [pollJobs] catches every error itself, the
    500 answer of the handler is never given, and the answer says
    nothing about whether the store could be queried or any message
    was sent. *)
Theorem X15_trigger_always_succeeds env w :
  post_trigger env w
  = (Ok (res_json (TriggerDone true "Job polling triggered")),
     snd (pollJobs env w)).
Proof.
  unfold post_trigger, try_catch, bind, ret.
  destruct (pollJobs_spec env w) as [H _].
  destruct (pollJobs env w) as [r w']. cbn in *. by rewrite H.
Qed.


(** ** Starting the worker *)

(** X16. [startWorker] itself never throws. It ends the process, with
    exit code 1, exactly when the connection to the store cannot be
    opened or the HTTP server cannot be started; it then logs the error
    and neither schedules [pollJobs] nor runs it, and touches no
    collection. Otherwise the server listens on [PORT] (3001 when the
    variable is unset or empty), [pollJobs] is scheduled once, at
    [POLL_INTERVAL] (5000 when unset or empty), the initial poll cycle
    has run, and the process goes on whatever that cycle met: a store
    that rejects the first query or a mail server that refuses every
    message does not stop the worker. *)
Theorem X16_startWorker h p :
  let r := startWorker h (Host.env h) p in
  let p' := snd r in
  fst r = Ok tt
  /\ match Host.connect h, Host.listen h with
     | None, None =>
         Process.exit_code p' = Process.exit_code p
         /\ Process.connected p' = true
         /\ Process.server p' = Some (setting (Host.PORT h) 3001)
         /\ Process.timers p'
            = Process.timers p ++ [setting (Host.POLL_INTERVAL h) 5000]
         /\ Process.store p' = snd (pollJobs (Host.env h) (Process.store p))
     | Some e, _ | None, Some e =>
         Process.exit_code p' = Some 1
         /\ Process.connected p'
            = match Host.connect h with
              | Some _ => Process.connected p
              | None => true
              end
         /\ Process.server p' = Process.server p
         /\ Process.timers p' = Process.timers p
         /\ Process.store p'
            = record (EvLog lvl_error
                        [Txt "❌ Failed to start worker: "; Txt (message e)])
                     (Process.store p)
     end
  /\ (forall text, Host.PORT h = Some text ->
        setting (Host.PORT h) 3001
        = if String.eqb text EmptyString then Fallback 3001 else FromEnv text).
Proof.
  cbn zeta.
  cbv [startWorker try_catch bind mongoose_connect app_listen setInterval_pollJobs
       lift_store process_exit logger].
  destruct (Host.connect h) as [e|]; [|destruct (Host.listen h) as [e|]].
  - cbn. split_and!; try done. intros text ->. by destruct text.
  - cbn. split_and!; try done. intros text ->. by destruct text.
  - cbn [Process.store Process.connected Process.server Process.timers
         Process.exit_code].
    destruct (pollJobs_spec (Host.env h) (Process.store p)) as [H _].
    destruct (pollJobs (Host.env h) (Process.store p)) as [r w']. cbn in *.
    rewrite H. cbn. split_and!; try done. intros text ->. by destruct text.
Qed.
